(** * xopen: buffered readers and writers over plain, gzip, xz and zstd streams

    A shallow embedding of [xopen.go].  Byte streams are lists of bytes
    followed by the error that ends them; Go's [(value, error)] results are
    kept as pairs of options; the operating system, the user database, the
    HTTP client, the process launcher and the three codecs are collaborators
    whose behaviour is either modelled by a small explicit state (files,
    descriptors, standard output) or taken as a parameter (codecs,
    [filepath.Dir]). *)

From Stdlib Require Import ZArith Strings.Byte Strings.Ascii.
From stdpp Require Import gmap strings list.

Local Open Scope string_scope.

#[global] Instance byte_eq_dec : EqDecision byte := Byte.byte_eq_dec.

(** ** Errors

    Go compares error values by identity ([err != io.EOF]); every error
    value the program creates or can receive is a constructor here. *)
Inductive error : Type :=
| io_EOF
| ErrNoContent                          (* errors.New("xopen: no content") *)
| ErrDirNotSupported                    (* errors.New("xopen: input is a directory") *)
| ErrStdinNotDetected                   (* errors.New("stdin not detected") *)
| ErrHTTPStatus (f status : string)     (* fmt.Errorf("http error downloading %s. status: %s", ..) *)
| ErrNonDirectory (dir : string)        (* fmt.Errorf("can not write file into a non-directory path: %s", ..) *)
| bufio_ErrBufferFull
| bufio_ErrNegativeCount
| bufio_ErrInvalidUnreadRune
| os_ErrNotExist
| os_ErrExist
| os_ErrClosed
| os_ErrPermission
| os_EISDIR
| os_ENOTDIR
| os_EBADF
| ErrExternal (msg : string).           (* any other failure of a collaborator *)

#[global] Instance error_eq_dec : EqDecision error.
Proof. solve_decision. Defined.

(** A collaborator call that yields either a value or an error. *)
Inductive res (A : Type) : Type :=
| ok (a : A)
| fail (e : error).
Arguments ok {A} a.
Arguments fail {A} e.

(** Go's [err != io.EOF] on a possibly nil error. *)
Definition is_EOF (err : option error) : bool :=
  match err with
  | Some io_EOF => true
  | _ => false
  end.

Definition non_nil {A} (x : option A) : bool :=
  match x with
  | Some _ => true
  | None => false
  end.

(** ** Byte streams and [bufio.Reader]

    An [io.Reader] delivers the bytes [avail] and from then on returns
    [ending]: [io_EOF] for a stream that simply ends, anything else for a
    read failure. *)
Record Stream : Type := mkStream {
  avail : list byte;
  ending : error
}.

Definition bufSize : Z := 65536.

(** [bufio.Reader]: the size of its buffer, the bytes still to be read from
    it (buffered or yet to be pulled from the underlying reader), the error
    that follows them, and the bytes of the last rune read, which
    [UnreadRune] gives back ([None] stands for [lastRuneSize = -1]). *)
Record bufio_Reader : Type := mkBufReader {
  br_size : Z;
  br_data : list byte;
  br_end : error;
  br_lastRune : option (list byte)
}.

(** [bufio.NewReaderSize]: buffers smaller than 16 bytes are raised to 16. *)
Definition bufio_NewReaderSize (rd : Stream) (size : Z) : bufio_Reader :=
  {| br_size := Z.max size 16;
     br_data := avail rd;
     br_end := ending rd;
     br_lastRune := None |}.

(** What remains to be read from a buffered reader, as a stream. *)
Definition br_stream (b : bufio_Reader) : Stream :=
  {| avail := br_data b; ending := br_end b |}.

(** [bufio.Reader.Peek]: the next [n] bytes without advancing.  With fewer
    than [n] bytes before the stream ends it returns what there is and the
    error that ended the stream; a request larger than the buffer returns
    [ErrBufferFull]. *)
Definition bufio_Peek (b : bufio_Reader) (n : Z)
  : list byte * option error * bufio_Reader :=
  let b' := {| br_size := br_size b; br_data := br_data b;
               br_end := br_end b; br_lastRune := None |} in
  if (n <? 0)%Z then ([], Some bufio_ErrNegativeCount, b)
  else if (br_size b <? n)%Z then
    (take (Z.to_nat (br_size b)) (br_data b), Some bufio_ErrBufferFull, b')
  else if (Z.of_nat (length (br_data b)) <? n)%Z then
    (br_data b, Some (br_end b), b')
  else (take (Z.to_nat n) (br_data b), None, b').

(** ** Magic-byte sniffing *)

(** The comparison loop of [CheckBytes]: [for i := range buf] with
    [m[i] != buf[i]] returning false.  [m] has [len(buf)] bytes whenever the
    loop is reached; a shorter [m] would make [m[i]] panic, which is the
    [None] result. *)
Fixpoint CheckBytes_loop (m buf : list byte) : option bool :=
  match buf with
  | [] => Some true
  | x :: buf' =>
      match m with
      | [] => None
      | y :: m' => if Byte.eqb y x then CheckBytes_loop m' buf' else Some false
      end
  end.

(** [CheckBytes]: peek [len(buf)] bytes; any peek error becomes
    [ErrNoContent]. *)
Definition CheckBytes (b : bufio_Reader) (buf : list byte)
  : bool * option error * bufio_Reader :=
  let '(m, err, b) := bufio_Peek b (Z.of_nat (length buf)) in
  match err with
  | Some _ => (false, Some ErrNoContent, b)
  | None =>
      match CheckBytes_loop m buf with
      | Some r => (r, None, b)
      | None => (false, None, b)
      end
  end.

Definition gzip_magic : list byte := [x1f; x8b].
Definition xz_magic : list byte := [xfd; x37; x7a; x58; x5a; x00].
Definition zstd_magic : list byte := [x28; xb5; x2f; xfd].

Definition IsGzip (b : bufio_Reader) := CheckBytes b gzip_magic.
Definition IsXz (b : bufio_Reader) := CheckBytes b xz_magic.
Definition IsZst (b : bufio_Reader) := CheckBytes b zstd_magic.

(** ** UTF-8 decoding of the first rune

    [bufio.Reader.ReadRune] decodes with [utf8.DecodeRune] of the Go standard
    library; the model follows that function table by table. *)
Definition byteZ (c : byte) : Z := Z.of_N (Byte.to_N c).

Definition utf8_RuneError : Z := 0xFFFD.
Definition utf8_RuneSelf : Z := 0x80.

(** [utf8.first]: information about the first byte of an encoding. *)
Definition utf8_first (p0 : Z) : Z :=
  if (p0 <? 0x80)%Z then 0xF0        (* as: ASCII *)
  else if (p0 <? 0xC2)%Z then 0xF1   (* xx: invalid *)
  else if (p0 <? 0xE0)%Z then 0x02   (* s1 *)
  else if (p0 =? 0xE0)%Z then 0x13   (* s2 *)
  else if (p0 <? 0xED)%Z then 0x03   (* s3 *)
  else if (p0 =? 0xED)%Z then 0x23   (* s4 *)
  else if (p0 <? 0xF0)%Z then 0x03   (* s3 *)
  else if (p0 =? 0xF0)%Z then 0x34   (* s5 *)
  else if (p0 <? 0xF4)%Z then 0x04   (* s6 *)
  else if (p0 =? 0xF4)%Z then 0x44   (* s7 *)
  else 0xF1.                         (* xx *)

(** [utf8.acceptRanges]: bounds on the second byte. *)
Definition utf8_acceptRanges (i : Z) : Z * Z :=
  if (i =? 0)%Z then (0x80, 0xBF)%Z
  else if (i =? 1)%Z then (0xA0, 0xBF)%Z
  else if (i =? 2)%Z then (0x80, 0x9F)%Z
  else if (i =? 3)%Z then (0x90, 0xBF)%Z
  else if (i =? 4)%Z then (0x80, 0x8F)%Z
  else (0, 0)%Z.

(** [p[i]] once the length check of [DecodeRune] has passed. *)
Definition byte_at (p : list byte) (i : nat) : Z :=
  byteZ (default x00 (p !! i)).

Definition utf8_DecodeRune (p : list byte) : Z * nat :=
  let n := Z.of_nat (length p) in
  if (n <? 1)%Z then (utf8_RuneError, 0%nat)
  else
    let p0 := byte_at p 0 in
    let x := utf8_first p0 in
    if (0xF0 <=? x)%Z then
      (* mask := rune(x) << 31 >> 31: all ones exactly when x is odd *)
      let mask := if Z.odd x then (-1)%Z else 0%Z in
      (Z.lor (Z.land p0 (Z.lnot mask)) (Z.land utf8_RuneError mask), 1%nat)
    else
      let sz := Z.land x 7 in
      let accept := utf8_acceptRanges (Z.shiftr x 4) in
      if (n <? sz)%Z then (utf8_RuneError, 1%nat)
      else
        let b1 := byte_at p 1 in
        if (b1 <? fst accept)%Z || (snd accept <? b1)%Z then (utf8_RuneError, 1%nat)
        else if (sz <=? 2)%Z then
          (Z.lor (Z.shiftl (Z.land p0 0x1F) 6) (Z.land b1 0x3F), 2%nat)
        else
          let b2 := byte_at p 2 in
          if (b2 <? 0x80)%Z || (0xBF <? b2)%Z then (utf8_RuneError, 1%nat)
          else if (sz <=? 3)%Z then
            (Z.lor (Z.lor (Z.shiftl (Z.land p0 0x0F) 12)
                          (Z.shiftl (Z.land b1 0x3F) 6))
                   (Z.land b2 0x3F), 3%nat)
          else
            let b3 := byte_at p 3 in
            if (b3 <? 0x80)%Z || (0xBF <? b3)%Z then (utf8_RuneError, 1%nat)
            else
              (Z.lor (Z.lor (Z.lor (Z.shiftl (Z.land p0 0x07) 18)
                                   (Z.shiftl (Z.land b1 0x3F) 12))
                            (Z.shiftl (Z.land b2 0x3F) 6))
                     (Z.land b3 0x3F), 4%nat).

(** [bufio.Reader.ReadRune]: an error when nothing is left, otherwise the
    first rune and its width; a byte below [RuneSelf] is its own rune.  The
    reader fills its buffer until a full rune or the end of the stream is
    there, so decoding sees the bytes that [br_data] starts with. *)
Definition bufio_ReadRune (b : bufio_Reader)
  : Z * nat * option error * bufio_Reader :=
  match br_data b with
  | [] =>
      (0%Z, 0%nat, Some (br_end b),
       {| br_size := br_size b; br_data := []; br_end := br_end b;
          br_lastRune := None |})
  | c :: _ =>
      let '(r, size) :=
        if (utf8_RuneSelf <=? byteZ c)%Z then utf8_DecodeRune (br_data b)
        else (byteZ c, 1%nat) in
      (r, size, None,
       {| br_size := br_size b; br_data := drop size (br_data b);
          br_end := br_end b;
          br_lastRune := Some (take size (br_data b)) |})
  end.

(** [bufio.Reader.UnreadRune]: gives the last rune back if the last
    operation was [ReadRune]. *)
Definition bufio_UnreadRune (b : bufio_Reader) : option error * bufio_Reader :=
  match br_lastRune b with
  | None => (Some bufio_ErrInvalidUnreadRune, b)
  | Some bs =>
      (None, {| br_size := br_size b; br_data := bs ++ br_data b;
                br_end := br_end b; br_lastRune := None |})
  end.

(** The byte-order mark, U+FEFF, and its UTF-8 encoding. *)
Definition BOM : Z := 0xFEFF.
Definition BOM_bytes : list byte := [xef; xbb; xbf].

(** ** Collaborators

    The three codec libraries.  A decoder is opened on a stream and gives
    the decoded stream or the error of a malformed header.  An encoder is
    driven by [NewWriter], [Write], [Flush] and [Close]; what it hands to its
    sink at each call may depend on everything it was asked before. *)
Inductive codec : Type := gzip | xz | zstd.

#[global] Instance codec_eq_dec : EqDecision codec.
Proof. solve_decision. Defined.

Definition magic (c : codec) : list byte :=
  match c with
  | gzip => gzip_magic
  | xz => xz_magic
  | zstd => zstd_magic
  end.

Inductive enc_op : Type :=
| OpNew
| OpWrite (p : list byte)
| OpFlush
| OpClose.

(** [*os.File] is a descriptor number; the readers that [Buf] can be handed
    are files, the standard output of a child process, an HTTP response body
    (all three have a [Close] method) or a reader without one. *)
Definition File : Type := nat.
Definition os_Stdin : File := 0%nat.
Definition os_Stdout : File := 1%nat.

Inductive io_Reader : Type :=
| FileReader (f : File) (s : Stream)
| PipeReader (name : string) (arg : list string) (s : Stream)
| BodyReader (url : string) (s : Stream)
| BareReader (s : Stream).

Definition reader_stream (r : io_Reader) : Stream :=
  match r with
  | FileReader _ s | PipeReader _ _ s | BodyReader _ s | BareReader s => s
  end.

(** The type assertion [r.(io.ReadCloser)]. *)
Definition is_ReadCloser (r : io_Reader) : bool :=
  match r with
  | BareReader _ => false
  | _ => true
  end.

(** The calls on collaborators that the environment can fail.  Those that
    [Close] and [Flush] make directly (the first seven) are also recorded in
    the trace of the world.  A failure of [os.OpenFile] or [os.MkdirAll] that
    comes from the environment is one the table of paths does not decide: a
    directory further up the path that cannot be searched, a full descriptor
    table or disk. *)
Inductive Call : Type :=
| CallBufFlush                    (* Flush of the bufio.Writer *)
| CallEncFlush (c : codec)        (* Flush of a compressing writer *)
| CallEncClose (c : codec)        (* Close of a compressing writer *)
| CallFileClose (f : File)        (* Close of an os.File *)
| CallDecClose (c : codec)        (* Close of a decompressing reader *)
| CallPipeClose (name : string)   (* Close of a child's standard output *)
| CallBodyClose (url : string)    (* Close of an HTTP response body *)
| CallEncNew (c : codec)          (* NewWriter of a compressing writer *)
| CallEncWrite (c : codec)        (* Write of a compressing writer *)
| CallFileWrite (f : File)        (* Write of an os.File *)
| CallOpenFile (name : string)    (* os.OpenFile, os.Open *)
| CallMkdirAll (path : string).   (* os.MkdirAll *)

Record User : Type := mkUser { HomeDir : string }.

Record Env : Type := mkEnv {
  (* codecs *)
  codec_NewReader : codec -> Stream -> res Stream;
  codec_emit : codec -> list enc_op -> enc_op -> list byte;
  (* path/filepath *)
  filepath_Dir : string -> string;
  (* os/user *)
  user_Current : res User;
  user_Lookup : string -> res User;
  (* os.Stdin *)
  stdin_Stat : res Z;
  stdin_stream : Stream;
  (* net/http: status code, status text and body of a GET *)
  http_Get : string -> res (Z * string * Stream);
  (* os/exec *)
  exec_StdoutPipe : string -> list string -> option error;
  exec_Start : string -> list string -> res Stream;
  (* the process: its file mode creation mask, and whether it runs with the
     privilege that passes every permission check *)
  umask : Z;
  privileged : bool;
  (* failures of the environment (full disk, broken pipe, ...) *)
  fault : Call -> option error
}.

(** ** The mutable world: files, descriptors, encoders, standard output and
    the trace of calls made on owned layers.

    Every entry of the table of paths carries its permission bits; the
    entries belong to the caller, so the owner's bits decide. *)
Inductive Node : Type :=
| Directory (mode : Z)
| Regular (mode : Z) (data : list byte).

Inductive Target : Type :=
| OnPath (p : string)
| OnStdin
| OnStdout.

Record Descriptor : Type := mkDescriptor {
  d_target : Target;
  d_flag : Z;
  d_pos : nat
}.

Record Encoder : Type := mkEncoder {
  enc_sink : File;
  enc_hist : list enc_op
}.

Record World : Type := mkWorld {
  fs : gmap string Node;
  fds : gmap nat Descriptor;
  encs : gmap nat Encoder;
  stdout_data : list byte;
  trace : list Call
}.

Definition set_fs (v : gmap string Node) (w : World) : World :=
  mkWorld v (fds w) (encs w) (stdout_data w) (trace w).
Definition set_fds (v : gmap nat Descriptor) (w : World) : World :=
  mkWorld (fs w) v (encs w) (stdout_data w) (trace w).
Definition set_encs (v : gmap nat Encoder) (w : World) : World :=
  mkWorld (fs w) (fds w) v (stdout_data w) (trace w).
Definition set_stdout_data (v : list byte) (w : World) : World :=
  mkWorld (fs w) (fds w) (encs w) v (trace w).
Definition set_trace (v : list Call) (w : World) : World :=
  mkWorld (fs w) (fds w) (encs w) (stdout_data w) v.

(** State passing over the world. *)
Definition M (A : Type) : Type := World -> A * World.

#[global] Instance M_ret : MRet M := fun A a w => (a, w).
#[global] Instance M_bind : MBind M :=
  fun A B k m w => let '(a, w') := m w in k a w'.

Definition gets {A} (f : World -> A) : M A := fun w => (f w, w).
Definition modify (f : World -> World) : M unit := fun w => (tt, f w).

(** Record a call on an owned layer. *)
Definition called (c : Call) : M unit :=
  modify (fun w => set_trace (trace w ++ [c]) w).

(** ** The composite reader *)
Record Reader : Type := mkReader {
  Reader_Reader : bufio_Reader;   (* the embedded bufio.Reader *)
  Reader_rdr : io_Reader;
  Reader_gz : option codec        (* the decoder kept for Close, if any *)
}.

(** [Close] on an [*os.File]: the descriptor is released; a second close,
    or a failure of the environment, is an error. *)
Definition file_Close (env : Env) (f : File) : M (option error) :=
  called (CallFileClose f) ;;
  match fault env (CallFileClose f) with
  | Some e => mret (Some e)
  | None =>
      d ← gets (fun w => fds w !! f);
      match d with
      | None => mret (Some os_ErrClosed)
      | Some _ => modify (fun w => set_fds (delete f (fds w)) w) ;; mret None
      end
  end.

(** [Close] on a raw source, and on a decoder. *)
Definition io_Close (env : Env) (r : io_Reader) : M (option error) :=
  match r with
  | FileReader f _ => file_Close env f
  | PipeReader name _ _ =>
      called (CallPipeClose name) ;; mret (fault env (CallPipeClose name))
  | BodyReader url _ =>
      called (CallBodyClose url) ;; mret (fault env (CallBodyClose url))
  | BareReader _ => mret None
  end.

Definition dec_Close (env : Env) (c : codec) : M (option error) :=
  called (CallDecClose c) ;; mret (fault env (CallDecClose c)).

(** [Reader.Close]: close the kept decoder, then the raw source when it has
    a [Close] method; every result is dropped and [nil] is returned. *)
Definition Reader_Close (env : Env) (r : Reader) : M (option error) :=
  match Reader_gz r with
  | Some c => dec_Close env c ;; mret tt
  | None => mret tt
  end ;;
  (if is_ReadCloser (Reader_rdr r)
   then io_Close env (Reader_rdr r) ;; mret tt
   else mret tt) ;;
  mret None.

(** ** The decoding pipeline *)

(** The tail of [Buf] ("check BOM"): read one rune; an error there is
    [ErrNoContent]; a rune other than the byte-order mark is given back. *)
Definition Buf_BOM (b : bufio_Reader) (r : io_Reader) (rdr : option codec)
  : option Reader * option error :=
  let '(t, _, err, b) := bufio_ReadRune b in
  if non_nil err then (None, Some ErrNoContent)
  else
    let b := if negb (t =? BOM)%Z then snd (bufio_UnreadRune b) else b in
    (Some (mkReader b r rdr), None).

(** The head of [Buf]: sniff gzip, then xz, then zstd; a sniff error other
    than [io.EOF] is returned as it is ([inr]).  Otherwise the buffered
    reader to go on with and the reader to store for [Close]: only the gzip
    reader is stored ([rdr]); the xz and zstd readers ([rd]) live in the
    buffered reader alone. *)
Definition Buf_sniff (env : Env) (r : io_Reader)
  : (bufio_Reader * option codec) + option error :=
  let b := bufio_NewReaderSize (reader_stream r) bufSize in
  let '(is_, err, b) := IsGzip b in
  if non_nil err && negb (is_EOF err) then inr err
  else if is_ then
    match codec_NewReader env gzip (br_stream b) with
    | fail err => inr (Some err)
    | ok rdr => inl (bufio_NewReaderSize rdr bufSize, Some gzip)
    end
  else
    let '(is_, err, b) := IsXz b in
    if non_nil err && negb (is_EOF err) then inr err
    else if is_ then
      match codec_NewReader env xz (br_stream b) with
      | fail err => inr (Some err)
      | ok rd => inl (bufio_NewReaderSize rd bufSize, None)
      end
    else
      let '(is_, err, b) := IsZst b in
      if non_nil err && negb (is_EOF err) then inr err
      else if is_ then
        match codec_NewReader env zstd (br_stream b) with
        | fail err => inr (Some err)
        | ok rd => inl (bufio_NewReaderSize rd bufSize, None)
        end
      else inl (b, None).

(** [Buf]. *)
Definition Buf (env : Env) (r : io_Reader) : option Reader * option error :=
  match Buf_sniff env r with
  | inr err => (None, err)
  | inl (b, rdr) => Buf_BOM b r rdr
  end.

(** What a caller reads from a composite reader. *)
Definition Reader_stream (r : Reader) : Stream := br_stream (Reader_Reader r).

(** ** Home directories *)

(** [strings.Split(s, sep)] for a one-byte separator. *)
Fixpoint strings_Split (s : string) (sep : ascii) : list string :=
  match s with
  | EmptyString => [EmptyString]
  | String c s' =>
      if Ascii.eqb c sep then EmptyString :: strings_Split s' sep
      else match strings_Split s' sep with
           | [] => [String c EmptyString]
           | t :: ts => String c t :: ts
           end
  end.

(** [s[1:]], for a string that is not empty (every use is guarded). *)
Definition tail1 (s : string) : string :=
  match s with
  | EmptyString => EmptyString
  | String _ s' => s'
  end.

(** [ExpandUser]. *)
Definition ExpandUser (env : Env) (path : string) : string * option error :=
  if (String.length path =? 0)%nat || negb (bool_decide (String.get 0 path = Some "~"%char))
  then (path, None)
  else
    let u :=
      if (String.length path =? 1)%nat || bool_decide (String.get 1 path = Some "/"%char)
      then user_Current env
      else
        let name := default EmptyString (strings_Split (tail1 path) "/"%char !! 0%nat) in
        user_Lookup env name in
    match u with
    | fail err => ("", Some err)
    | ok u =>
        let home := HomeDir u in
        (home +:+ "/" +:+ tail1 path, None)
    end.

(** ** The operating system: a flat table of paths, open flags as on Linux *)
Definition O_RDONLY : Z := 0x0.
Definition O_WRONLY : Z := 0x1.
Definition O_RDWR : Z := 0x2.
Definition O_CREATE : Z := 0x40.
Definition O_EXCL : Z := 0x80.
Definition O_TRUNC : Z := 0x200.
Definition O_APPEND : Z := 0x400.

(** [os.ModeCharDevice]. *)
Definition os_ModeCharDevice : Z := Z.shiftl 1 21.

Definition has_flag (flag bit : Z) : bool := negb (Z.land flag bit =? 0)%Z.

Definition writable (flag : Z) : bool :=
  (Z.land flag 3 =? O_WRONLY)%Z || (Z.land flag 3 =? O_RDWR)%Z.

(** Permission bits of the owner ([0400], [0200], [0100]), and [0777]. *)
Definition S_IRUSR : Z := 0x100.
Definition S_IWUSR : Z := 0x80.
Definition S_IXUSR : Z := 0x40.
Definition os_ModePerm : Z := 0x1ff.

(** Whether the caller has the permission [bit] on an entry of mode [mode]. *)
Definition may (env : Env) (mode bit : Z) : bool :=
  privileged env || has_flag mode bit.

(** The mode of an entry created with [perm]: the permission bits of [perm]
    less those of the process's mask. *)
Definition created_mode (env : Env) (perm : Z) : Z :=
  Z.ldiff (Z.land perm os_ModePerm) (umask env).

(** What an open with [flag] asks of the file: read access unless the flags
    say write-only, write access unless they say read-only, and write access
    to truncate. *)
Definition needs_read (flag : Z) : bool := negb (Z.land flag 3 =? O_WRONLY)%Z.
Definition needs_write (flag : Z) : bool :=
  negb (Z.land flag 3 =? O_RDONLY)%Z || has_flag flag O_TRUNC.

Definition permitted (env : Env) (flag mode : Z) : bool :=
  (negb (needs_read flag) || may env mode S_IRUSR)
  && (negb (needs_write flag) || may env mode S_IWUSR).

(** [os.Stat]: whether the path is a directory, or an error. *)
Definition os_Stat (name : string) : M (res bool) :=
  n ← gets (fun w => fs w !! name);
  match n with
  | Some (Directory _) => mret (ok true)
  | Some (Regular _ _) => mret (ok false)
  | None => mret (fail os_ErrNotExist)
  end.

(** [os.MkdirAll], on a flat table: the directory itself, created with the
    mode [perm] less the mask. *)
Definition os_MkdirAll (env : Env) (path : string) (perm : Z) : M (option error) :=
  match fault env (CallMkdirAll path) with
  | Some e => mret (Some e)
  | None =>
      n ← gets (fun w => fs w !! path);
      match n with
      | Some (Directory _) => mret None
      | Some (Regular _ _) => mret (Some os_ENOTDIR)
      | None =>
          modify (fun w =>
            set_fs (<[path := Directory (created_mode env perm)]> (fs w)) w) ;;
          mret None
      end
  end.

Definition new_fd (d : Descriptor) : M File :=
  f ← gets (fun w => fresh (dom (fds w)));
  modify (fun w => set_fds (<[f := d]> (fds w)) w) ;;
  mret f.

(** [os.OpenFile], as [open(2)] on Linux.

    An entry that exists is refused with [O_CREATE|O_EXCL]; a directory is
    refused when the flags write, truncate or create; otherwise the entry's
    mode must permit the access the flags ask for, and [O_TRUNC] empties a
    file.  An entry that does not exist is created under [O_CREATE], with
    the mode [perm] less the mask, when its parent is a directory that the
    caller may write and search; the descriptor that creates a file is
    granted whatever the new mode says. *)
Definition os_OpenFile (env : Env) (name : string) (flag : Z) (perm : Z)
  : M (res File) :=
  match fault env (CallOpenFile name) with
  | Some e => mret (fail e)
  | None =>
      n ← gets (fun w => fs w !! name);
      match n with
      | Some node =>
          if has_flag flag O_CREATE && has_flag flag O_EXCL then mret (fail os_ErrExist)
          else
            match node with
            | Directory mode =>
                if needs_write flag || has_flag flag O_CREATE then mret (fail os_EISDIR)
                else if negb (permitted env flag mode) then mret (fail os_ErrPermission)
                else f ← new_fd (mkDescriptor (OnPath name) flag 0); mret (ok f)
            | Regular mode _ =>
                if negb (permitted env flag mode) then mret (fail os_ErrPermission)
                else
                  (if has_flag flag O_TRUNC
                   then modify (fun w => set_fs (<[name := Regular mode []]> (fs w)) w)
                   else mret tt) ;;
                  f ← new_fd (mkDescriptor (OnPath name) flag 0); mret (ok f)
            end
      | None =>
          if has_flag flag O_CREATE then
            d ← gets (fun w => fs w !! filepath_Dir env name);
            match d with
            | Some (Directory dmode) =>
                if may env dmode S_IWUSR && may env dmode S_IXUSR then
                  modify (fun w =>
                    set_fs (<[name := Regular (created_mode env perm) []]> (fs w)) w) ;;
                  f ← new_fd (mkDescriptor (OnPath name) flag 0); mret (ok f)
                else mret (fail os_ErrPermission)
            | Some (Regular _ _) => mret (fail os_ENOTDIR)
            | None => mret (fail os_ErrNotExist)
            end
          else mret (fail os_ErrNotExist)
      end
  end.

(** [os.Open]: [OpenFile(name, O_RDONLY, 0)]; the file is read as the bytes
    it holds. *)
Definition os_Open (env : Env) (name : string) : M (res io_Reader) :=
  f ← os_OpenFile env name O_RDONLY 0;
  match f with
  | fail e => mret (fail e)
  | ok f =>
      n ← gets (fun w => fs w !! name);
      match n with
      | Some (Regular _ data) => mret (ok (FileReader f (mkStream data io_EOF)))
      | _ => mret (ok (FileReader f (mkStream [] os_EISDIR)))
      end
  end.

(** The content of a file after [p] was written at position [pos]; a gap
    past the end is filled with zero bytes. *)
Definition write_at (pos : nat) (p data : list byte) : list byte :=
  take pos data ++ replicate (pos - length data) x00 ++ p
    ++ drop (pos + length p) data.

(** [Write] on an [*os.File]: refused on a closed or read-only descriptor,
    or when the environment fails it; otherwise the bytes go to standard
    output, or into the file at the descriptor's position (at the end with
    [O_APPEND]). *)
Definition file_Write (env : Env) (f : File) (p : list byte) : M (option error) :=
  d ← gets (fun w => fds w !! f);
  match d, fault env (CallFileWrite f) with
  | None, _ => mret (Some os_ErrClosed)
  | Some _, Some e => mret (Some e)
  | Some d, None =>
      if negb (writable (d_flag d)) then mret (Some os_EBADF)
      else
        match d_target d with
        | OnStdin => mret (Some os_EBADF)
        | OnStdout =>
            modify (fun w => set_stdout_data (stdout_data w ++ p) w) ;; mret None
        | OnPath name =>
            n ← gets (fun w => fs w !! name);
            match n with
            | Some (Regular mode data) =>
                let pos := if has_flag (d_flag d) O_APPEND then length data
                           else d_pos d in
                modify (fun w =>
                  set_fds (<[f := mkDescriptor (OnPath name) (d_flag d)
                                               (pos + length p)]> (fds w))
                    (set_fs (<[name := Regular mode (write_at pos p data)]> (fs w)) w)) ;;
                mret None
            | _ => mret (Some os_EISDIR)
            end
        end
  end.

(** ** Compressing writers and [bufio.Writer] *)

(** The call by which an operation of an encoder can be failed. *)
Definition enc_call (c : codec) (op : enc_op) : Call :=
  match op with
  | OpNew => CallEncNew c
  | OpWrite _ => CallEncWrite c
  | OpFlush => CallEncFlush c
  | OpClose => CallEncClose c
  end.

(** One operation on the encoder at address [id]: unless the environment
    fails it, the encoder notes the operation and hands to its sink what the
    codec emits for it. *)
Definition enc_do (env : Env) (c : codec) (id : nat) (op : enc_op)
  : M (option error) :=
  e ← gets (fun w => encs w !! id);
  match e, fault env (enc_call c op) with
  | None, _ => mret (Some (ErrExternal "invalid encoder"))
  | Some _, Some err => mret (Some err)
  | Some e, None =>
      let out := codec_emit env c (enc_hist e) op in
      modify (fun w =>
        set_encs (<[id := mkEncoder (enc_sink e) (enc_hist e ++ [op])]> (encs w)) w) ;;
      match out with
      | [] => mret None
      | _ => file_Write env (enc_sink e) out
      end
  end.

(** [gzip.NewWriter], [xz.NewWriter], [zstd.NewWriter]: a new encoder over
    the sink, and the error of its construction. *)
Definition NewWriter (env : Env) (c : codec) (wtr : File) : M (nat * option error) :=
  id ← gets (fun w => fresh (dom (encs w)));
  modify (fun w => set_encs (<[id := mkEncoder wtr []]> (encs w)) w) ;;
  err ← enc_do env c id OpNew;
  mret (id, err).

(** The [io.Writer] under a [bufio.Writer]: an encoder or the file. *)
Inductive io_Writer : Type :=
| ToEncoder (c : codec) (id : nat)
| ToFile (f : File).

Definition io_Write (env : Env) (wr : io_Writer) (p : list byte) : M (option error) :=
  match wr with
  | ToEncoder c id => enc_do env c id (OpWrite p)
  | ToFile f => file_Write env f p
  end.

Record bufio_Writer : Type := mkBufWriter {
  bw_err : option error;
  bw_buf : list byte;
  bw_size : Z;
  bw_wr : io_Writer
}.

Definition bufio_NewWriterSize (wr : io_Writer) (size : Z) : bufio_Writer :=
  mkBufWriter None [] (if (size <=? 0)%Z then 4096%Z else size) wr.

Definition bufio_Available (b : bufio_Writer) : Z :=
  (bw_size b - Z.of_nat (length (bw_buf b)))%Z.

(** [bufio.Writer.Flush]: a sticky error is returned again; otherwise the
    buffer is written to the underlying writer in one call. *)
Definition bufio_Flush (env : Env) (b : bufio_Writer)
  : M (option error * bufio_Writer) :=
  match bw_err b with
  | Some e => mret (Some e, b)
  | None =>
      match bw_buf b with
      | [] => mret (None, b)
      | _ =>
          err ← io_Write env (bw_wr b) (bw_buf b);
          match err with
          | Some e => mret (Some e, mkBufWriter (Some e) (bw_buf b) (bw_size b) (bw_wr b))
          | None => mret (None, mkBufWriter None [] (bw_size b) (bw_wr b))
          end
      end
  end.

(** The loop of [bufio.Writer.Write]: while [p] does not fit and no error is
    pending, either write [p] past an empty buffer or fill the buffer and
    flush it. *)
Fixpoint bufio_Write_loop (fuel : nat) (env : Env) (b : bufio_Writer) (p : list byte)
  : M (bufio_Writer * list byte) :=
  if (bufio_Available b <? Z.of_nat (length p))%Z && negb (non_nil (bw_err b)) then
    match fuel with
    | O => mret (b, p)
    | S fuel =>
        match bw_buf b with
        | [] =>
            err ← io_Write env (bw_wr b) p;
            match err with
            | Some e =>
                bufio_Write_loop fuel env (mkBufWriter (Some e) [] (bw_size b) (bw_wr b)) p
            | None => bufio_Write_loop fuel env b []
            end
        | _ =>
            let n := Z.to_nat (bufio_Available b) in
            '(_, b) ← bufio_Flush env
                        (mkBufWriter (bw_err b) (bw_buf b ++ take n p) (bw_size b) (bw_wr b));
            bufio_Write_loop fuel env b (drop n p)
        end
    end
  else mret (b, p).

(** [bufio.Writer.Write].  The loop body runs at most twice (a flush empties
    the buffer, and a write past an empty buffer leaves nothing to copy):
    see [bufio_Write_loop_settles]. *)
Definition bufio_Write (env : Env) (b : bufio_Writer) (p : list byte)
  : M (option error * bufio_Writer) :=
  '(b, p) ← bufio_Write_loop 2 env b p;
  match bw_err b with
  | Some e => mret (Some e, b)
  | None => mret (None, mkBufWriter None (bw_buf b ++ p) (bw_size b) (bw_wr b))
  end.

(** ** The composite writer *)

(** [gz], [xw] and [zw] are pointers to encoders ([None] is [nil]); the
    buffered writer writes into the same encoder, or into [wtr]. *)
Record Writer : Type := mkWriter {
  Writer_Writer : bufio_Writer;   (* the embedded bufio.Writer *)
  Writer_wtr : File;
  Writer_gz : option nat;
  Writer_xw : option nat;
  Writer_zw : option nat
}.

Definition with_Writer (b : bufio_Writer) (w : Writer) : Writer :=
  mkWriter b (Writer_wtr w) (Writer_gz w) (Writer_xw w) (Writer_zw w).

(** [w.Write(p)], promoted from the embedded [bufio.Writer]. *)
Definition Writer_Write (env : Env) (w : Writer) (p : list byte)
  : M (option error * Writer) :=
  '(err, b) ← bufio_Write env (Writer_Writer w) p;
  mret (err, with_Writer b w).

(** [Writer.Flush]: flush the buffer, then the gzip encoder, then the zstd
    encoder; the xz encoder is not touched. *)
Definition Writer_Flush (env : Env) (w : Writer) : M Writer :=
  called CallBufFlush ;;
  '(_, b) ← bufio_Flush env (Writer_Writer w);
  match Writer_gz w with
  | Some gz => called (CallEncFlush gzip) ;; enc_do env gzip gz OpFlush ;; mret tt
  | None => mret tt
  end ;;
  match Writer_zw w with
  | Some zw => called (CallEncFlush zstd) ;; enc_do env zstd zw OpFlush ;; mret tt
  | None => mret tt
  end ;;
  mret (with_Writer b w).

(** [Writer.Close]: [Flush], close whichever encoders are set, close the
    sink; every result is dropped and [nil] is returned. *)
Definition Writer_Close (env : Env) (w : Writer) : M (option error) :=
  w ← Writer_Flush env w;
  match Writer_gz w with
  | Some gz => called (CallEncClose gzip) ;; enc_do env gzip gz OpClose ;; mret tt
  | None => mret tt
  end ;;
  match Writer_xw w with
  | Some xw => called (CallEncClose xz) ;; enc_do env xz xw OpClose ;; mret tt
  | None => mret tt
  end ;;
  match Writer_zw w with
  | Some zw => called (CallEncClose zstd) ;; enc_do env zstd zw OpClose ;; mret tt
  | None => mret tt
  end ;;
  file_Close env (Writer_wtr w) ;;
  mret None.

(** ** Opening for writing *)

(** [strings.ToLower] on the ASCII letters; other bytes are kept. *)
Definition lower_ascii (c : ascii) : ascii :=
  let n := nat_of_ascii c in
  if (65 <=? n)%nat && (n <=? 90)%nat then ascii_of_nat (n + 32) else c.

Fixpoint strings_ToLower (s : string) : string :=
  match s with
  | EmptyString => EmptyString
  | String c s' => String (lower_ascii c) (strings_ToLower s')
  end.

(** [strings.HasSuffix] and [strings.HasPrefix]. *)
Definition strings_HasSuffix (s suffix : string) : bool :=
  (String.length suffix <=? String.length s)%nat &&
  String.eqb (String.substring (String.length s - String.length suffix)
                               (String.length suffix) s) suffix.

Definition strings_HasPrefix (s prefix : string) : bool :=
  String.prefix prefix s.

(** The head of [WopenFile]: the sink.  Standard output for "-"; otherwise
    the parent of [f] must not be a file, is created with mode [0755] when it
    does not exist (the result of [MkdirAll] is dropped), and [f] is opened
    with the caller's flags and permission bits. *)
Definition WopenFile_sink (env : Env) (f : string) (flag : Z) (perm : Z)
  : M (res File) :=
  if String.eqb f "-" then mret (ok os_Stdout)
  else
    let dir := filepath_Dir env f in
    st ← os_Stat dir;
    match st with
    | ok false => mret (fail (ErrNonDirectory dir))
    | _ =>
        match st with
        | fail os_ErrNotExist => os_MkdirAll env dir 0x1ed ;; mret tt
        | _ => mret tt
        end ;;
        os_OpenFile env f flag perm
    end.

(** [WopenFile]. *)
Definition WopenFile (env : Env) (f : string) (flag : Z) (perm : Z)
  : M (option Writer * option error) :=
  opened ← WopenFile_sink env f flag perm;
  match opened with
  | fail err => mret (None, Some err)
  | ok wtr =>
      let f2 := strings_ToLower f in
      if strings_HasSuffix f2 ".gz" then
        '(gz, _) ← NewWriter env gzip wtr;
        mret (Some (mkWriter (bufio_NewWriterSize (ToEncoder gzip gz) bufSize)
                             wtr (Some gz) None None), None)
      else if strings_HasSuffix f2 ".xz" then
        '(xw, err) ← NewWriter env xz wtr;
        mret (Some (mkWriter (bufio_NewWriterSize (ToEncoder xz xw) bufSize)
                             wtr None (Some xw) None), err)
      else if strings_HasSuffix f2 ".zst" then
        '(zw, err) ← NewWriter env zstd wtr;
        mret (Some (mkWriter (bufio_NewWriterSize (ToEncoder zstd zw) bufSize)
                             wtr None None (Some zw)), err)
      else
        mret (Some (mkWriter (bufio_NewWriterSize (ToFile wtr) bufSize)
                             wtr None None None), None)
  end.

(** [Wopen]: [WopenFile] with [os.O_RDONLY] and permission 0. *)
Definition Wopen (env : Env) (f : string) : M (option Writer * option error) :=
  WopenFile env f O_RDONLY 0.

(** ** Opening for reading *)

(** [IsStdin]: standard input is not a character device. *)
Definition IsStdin (env : Env) : bool :=
  match stdin_Stat env with
  | fail _ => false
  | ok mode => (Z.land mode os_ModeCharDevice =? 0)%Z
  end.

(** [XReader]: a URL is fetched; anything else is a path, expanded, checked
    not to be a directory and opened. *)
Definition XReader (env : Env) (f : string) : M (option io_Reader * option error) :=
  if strings_HasPrefix f "http://" || strings_HasPrefix f "https://" then
    match http_Get env f with
    | fail err => mret (None, Some err)
    | ok (StatusCode, Status, Body) =>
        if negb (StatusCode =? 200)%Z then mret (None, Some (ErrHTTPStatus f Status))
        else mret (Some (BodyReader f Body), None)
    end
  else
    let '(f, err) := ExpandUser env f in
    match err with
    | Some err => mret (None, Some err)
    | None =>
        fi ← os_Stat f;
        match fi with
        | fail err => mret (None, Some err)
        | ok true => mret (None, Some ErrDirNotSupported)
        | ok false =>
            r ← os_Open env f;
            match r with
            | fail err => mret (None, Some err)
            | ok r => mret (Some r, None)
            end
        end
    end.


(** A call either returns or panics. *)
Inductive run (A : Type) : Type :=
| Returns (a : A)
| Panics (msg : string).
Arguments Returns {A} a.
Arguments Panics {A} msg.

(** The command line of a pipe descriptor, as [Ropen] builds it:
    [strings.Split(f[1:], " ")], and arguments only when the split has exactly
    two parts. *)
Definition Ropen_Command (f : string) : string * list string :=
  let cmdStrs := strings_Split (tail1 f) " "%char in
  if (length cmdStrs =? 2)%nat
  then (default EmptyString (cmdStrs !! 0%nat), drop 1 cmdStrs)
  else (default EmptyString (cmdStrs !! 0%nat), []).

(** [Ropen].  [f[0]] on the empty string is a run-time panic. *)
Definition Ropen (env : Env) (f : string)
  : M (run (option Reader * option error)) :=
  if String.eqb f "-" then
    if negb (IsStdin env) then mret (Returns (None, Some ErrStdinNotDetected))
    else mret (Returns (Buf env (FileReader os_Stdin (stdin_stream env))))
  else
    match String.get 0 f with
    | None => mret (Panics "index out of range [0] with length 0")
    | Some c =>
        if Ascii.eqb c "|" then
          let '(name, arg) := Ropen_Command f in
          match exec_StdoutPipe env name arg with
          | Some err => mret (Returns (None, Some err))
          | None =>
              match exec_Start env name arg with
              | fail err => mret (Returns (None, Some err))
              | ok out => mret (Returns (Buf env (PipeReader name arg out)))
              end
          end
        else
          '(rdr, err) ← XReader env f;
          match err, rdr with
          | Some err, _ => mret (Returns (None, Some err))
          | None, Some rdr => mret (Returns (Buf env rdr))
          | None, None => mret (Panics "nil reader")
          end
    end.

(** ** A concrete environment

    A codec that stores its input after a header (the signature and four
    more bytes), a user database with one named user, a process launcher
    whose children print their own command line, a process without
    privilege whose mask is [022], and a working directory of mode [0755]
    with nothing in it.  The general theorems take the environment as a
    parameter; this one shows that their hypotheses can be met and gives the
    concrete runs. *)
Definition stored_header (c : codec) : list byte := magic c ++ [x00; x00; x00; x00].

Definition stored_emit (c : codec) (hist : list enc_op) (op : enc_op) : list byte :=
  match op with
  | OpNew => stored_header c
  | OpWrite p => p
  | OpFlush => []
  | OpClose => []
  end.

Definition stored_NewReader (c : codec) (s : Stream) : res Stream :=
  if bool_decide (take (length (stored_header c)) (avail s) = stored_header c)
  then ok (mkStream (drop (length (stored_header c)) (avail s)) (ending s))
  else fail (ErrExternal "invalid header").

(** [filepath.Dir] on a path that is clean already: what precedes the last
    slash, "." when there is none, "/" for an entry of the root. *)
Definition clean_Dir (f : string) : string :=
  match reverse (strings_Split f "/"%char) with
  | [] | [_] => "."
  | _ :: parents =>
      let d := String.concat "/" (reverse parents) in
      if String.eqb d "" then "/" else d
  end.

(** What a child process prints in the concrete environment. *)
Definition echo_argv (name : string) (arg : list string) : Stream :=
  mkStream (String.list_byte_of_string ("argv: " +:+ String.concat " " (name :: arg))) io_EOF.

Definition demo_env : Env := {|
  codec_NewReader := stored_NewReader;
  codec_emit := stored_emit;
  filepath_Dir := clean_Dir;
  user_Current := ok (mkUser "/home/me");
  user_Lookup := fun name =>
    if String.eqb name "bob" then ok (mkUser "/home/bob")
    else fail (ErrExternal "user: unknown user");
  stdin_Stat := ok 0%Z;
  stdin_stream := mkStream [] io_EOF;
  http_Get := fun _ => fail (ErrExternal "no network");
  exec_StdoutPipe := fun _ _ => None;
  exec_Start := fun name arg => ok (echo_argv name arg);
  umask := 0x12;
  privileged := false;
  fault := fun _ => None
|}.

Definition demo_world : World := {|
  fs := {[ "." := Directory 0x1ed ]};
  fds := {[ os_Stdin := mkDescriptor OnStdin O_RDONLY 0;
            os_Stdout := mkDescriptor OnStdout O_WRONLY 0 ]};
  encs := ∅;
  stdout_data := [];
  trace := []
|}.

(** Write [B] to [f] through [WopenFile] and [Close], then [Ropen] it. *)
Definition write_then_read (env : Env) (f : string) (flag : Z) (perm : Z)
    (B : list byte) : M (run (option Reader * option error)) :=
  '(w, _) ← WopenFile env f flag perm;
  match w with
  | None => mret (Returns (None, Some (ErrExternal "not opened for writing")))
  | Some w =>
      '(_, w) ← Writer_Write env w B;
      Writer_Close env w ;;
      Ropen env f
  end.

Definition read_back (r : run (option Reader * option error)) : option (list byte) :=
  match r with
  | Returns (Some rd, None) => Some (avail (Reader_stream rd))
  | _ => None
  end.

(** * Vocabulary of the properties

    Predicates, concrete inputs and auxiliary functions that the statements
    below are written with. *)
Local Open Scope list_scope.

(** Every byte, for checks by enumeration. *)
Definition all_bytes : list byte :=
  Eval vm_compute in omap (fun n => Byte.of_N (N.of_nat n)) (seq 0 256).

(** The tests of [DecodeRune] on the second byte and on the later ones. *)
Definition accept_ok (c0 c1 : byte) : bool :=
  let accept := utf8_acceptRanges (Z.shiftr (utf8_first (byteZ c0)) 4) in
  negb ((byteZ c1 <? fst accept)%Z || (snd accept <? byteZ c1)%Z).

Definition cont_ok (c : byte) : bool :=
  negb ((byteZ c <? 0x80)%Z || (0xBF <? byteZ c)%Z).

(** The reader after a peek: only the memory of the last rune is lost. *)
Definition peeked (b : bufio_Reader) : bufio_Reader :=
  mkBufReader (br_size b) (br_data b) (br_end b) None.

(** The claim of the specification about [CheckBytes], as it is worded: the
    no-content condition stands for a stream that ends too early, and a read
    failure during the peek comes back as another error. *)
Definition sniff_separates_failure_from_end (b : bufio_Reader) (buf : list byte) : Prop :=
  ((CheckBytes b buf).1.2 = Some ErrNoContent
   <-> (length (br_data b) < length buf)%nat /\ br_end b = io_EOF)
  /\ ((length (br_data b) < length buf)%nat -> br_end b <> io_EOF ->
      exists e, (CheckBytes b buf).1.2 = Some e /\ e <> ErrNoContent).

(** A stream whose first read fails. *)
Definition failing_stream : Stream := mkStream [] (ErrExternal "read failure").

(** The buffered reader [Buf] starts with. *)
Definition fresh_reader (r : io_Reader) : bufio_Reader :=
  bufio_NewReaderSize (reader_stream r) bufSize.

(** A gzip stream (in the stored codec) whose content is the byte-order
    mark followed by "hi". *)
Definition marked_gzip : io_Reader :=
  BareReader (mkStream (stored_header gzip ++ BOM_bytes ++ [x68; x69]) io_EOF).

(** [emits m t]: whatever the world, running [m] adds exactly the calls [t]
    to the trace. *)
Definition emits {A} (m : M A) (t : list Call) : Prop :=
  forall w, trace (m w).2 = trace w ++ t.

(** The calls that close a raw source and a kept decoder. *)
Definition source_close_calls (r : io_Reader) : list Call :=
  match r with
  | FileReader f _ => [CallFileClose f]
  | PipeReader name _ _ => [CallPipeClose name]
  | BodyReader url _ => [CallBodyClose url]
  | BareReader _ => []
  end.

Definition decoder_close_calls (gz : option codec) : list Call :=
  match gz with
  | Some c => [CallDecClose c]
  | None => []
  end.

(** The decoder [Buf] keeps for [Close]: the gzip reader, for a stream with
    the gzip signature. *)
Definition kept_decoder (r : io_Reader) : option codec :=
  if bool_decide (take 2 (avail (reader_stream r)) = gzip_magic) then Some gzip else None.

(** The claim of the specification about closing a reader, as it is worded:
    the decoder that was selected, [c], is closed first, then the raw
    source. *)
Definition Close_closes_selected_decoder
    (env : Env) (r : io_Reader) (c : codec) (w : World) : Prop :=
  forall rd, Buf env r = (Some rd, None) ->
    trace (Reader_Close env rd w).2
    = trace w ++ [CallDecClose c] ++ source_close_calls r.

(** An xz file and a zstd file (in the stored codec) holding "hi",
    opened on descriptor 3. *)
Definition xz_file : io_Reader :=
  FileReader 3 (mkStream (stored_header xz ++ [x68; x69]) io_EOF).
Definition zstd_file : io_Reader :=
  FileReader 3 (mkStream (stored_header zstd ++ [x68; x69]) io_EOF).
Definition gzip_file : io_Reader :=
  FileReader 3 (mkStream (stored_header gzip ++ [x68; x69]) io_EOF).

(** The calls [Flush] and [Close] make on the encoders that are set. *)
Definition encoder_flush_calls (W : Writer) : list Call :=
  match Writer_gz W with Some _ => [CallEncFlush gzip] | None => [] end
  ++ match Writer_zw W with Some _ => [CallEncFlush zstd] | None => [] end.

Definition encoder_close_calls (W : Writer) : list Call :=
  match Writer_gz W with Some _ => [CallEncClose gzip] | None => [] end
  ++ match Writer_xw W with Some _ => [CallEncClose xz] | None => [] end
  ++ match Writer_zw W with Some _ => [CallEncClose zstd] | None => [] end.

(** The claim of the specification about the result of [Writer.Close], as it
    is worded: an error of the last step, the close of the sink, is what
    [Close] returns. *)
Definition Close_returns_last_error (env : Env) (W : Writer) (w : World) : Prop :=
  forall e, fault env (CallFileClose (Writer_wtr W)) = Some e ->
    (Writer_Close env W w).1 = Some e.

(** The concrete environment with a sink whose close fails. *)
Definition failing_close_env : Env := {|
  codec_NewReader := stored_NewReader;
  codec_emit := stored_emit;
  filepath_Dir := clean_Dir;
  user_Current := ok (mkUser "/home/me");
  user_Lookup := fun _ => fail (ErrExternal "user: unknown user");
  stdin_Stat := ok 0%Z;
  stdin_stream := mkStream [] io_EOF;
  http_Get := fun _ => fail (ErrExternal "no network");
  exec_StdoutPipe := fun _ _ => None;
  exec_Start := fun _ _ => ok (mkStream [] io_EOF);
  umask := 0x12;
  privileged := false;
  fault := fun c =>
    match c with
    | CallFileClose _ => Some (ErrExternal "input/output error")
    | _ => None
    end
|}.

(** Flags that create or truncate a file for writing. *)
Definition O_WRONLY_CREATE_TRUNC : Z := Z.lor O_WRONLY (Z.lor O_CREATE O_TRUNC).

(** The result of opening [f] for writing in the working directory of the
    concrete world, and the writer in it. *)
Definition opened (env : Env) (f : string) : (option Writer * option error) * World :=
  WopenFile env f O_WRONLY_CREATE_TRUNC 0x1a4 demo_world.

Definition opened_Writer (env : Env) (f : string) : Writer :=
  default (mkWriter (bufio_NewWriterSize (ToFile os_Stdout) bufSize) os_Stdout None None None)
          (opened env f).1.1.

(** The result of writing [B] to that writer: the error and the writer, and
    the world then. *)
Definition written (env : Env) (f : string) (B : list byte)
  : (option error * Writer) * World :=
  Writer_Write env (opened_Writer env f) B (opened env f).2.

(** The claim of the specification about [Flush], as it is worded: with the
    encoder [c] active, the buffer is flushed and then the encoder. *)
Definition Flush_drains_encoder (env : Env) (W : Writer) (c : codec) (w : World) : Prop :=
  trace (Writer_Flush env W w).2 = trace w ++ [CallBufFlush; CallEncFlush c].

(** What an encoder emits for the operations [ops], having seen [done]
    before; from its creation on, what it has handed to its sink. *)
Fixpoint emitted (env : Env) (c : codec) (done ops : list enc_op) : list byte :=
  match ops with
  | [] => []
  | op :: ops' => codec_emit env c done op ++ emitted env c (done ++ [op]) ops'
  end.

Definition enc_output (env : Env) (c : codec) (hist : list enc_op) : list byte :=
  emitted env c [] hist.

(** The bytes an encoder was asked to compress. *)
Fixpoint payload (ops : list enc_op) : list byte :=
  match ops with
  | [] => []
  | OpWrite p :: ops' => p ++ payload ops'
  | _ :: ops' => payload ops'
  end.

(** No failure comes from the environment. *)
Definition no_fault (env : Env) : Prop := forall c, fault env c = None.

(** The world after [p] was written at the end of the file [name] of mode
    [mode], which held [data]. *)
Definition appended (f : File) (name : string) (flag mode : Z) (data p : list byte)
    (w : World) : World :=
  set_fds (<[f := mkDescriptor (OnPath name) flag (length data + length p)]> (fds w))
          (set_fs (<[name := Regular mode (data ++ p)]> (fs w)) w).

(** The encoder at [id] writes to the descriptor [fd], open on [name], and
    the file holds what the encoder has emitted so far. *)
Definition sink_holds (env : Env) (c : codec) (name : string) (fd id : nat)
    (hist : list enc_op) (w : World) : Prop :=
  encs w !! id = Some (mkEncoder fd hist)
  /\ (exists flag, writable flag = true
        /\ fds w !! fd
           = Some (mkDescriptor (OnPath name) flag (length (enc_output env c hist))))
  /\ (exists mode, fs w !! name = Some (Regular mode (enc_output env c hist))).

(** The operations between [NewWriter] and [Close]. *)
Definition in_session (op : enc_op) : Prop :=
  match op with
  | OpWrite _ | OpFlush => True
  | OpNew | OpClose => False
  end.

(** The condition of the loop of [bufio.Writer.Write]. *)
Definition Write_goes_on (b : bufio_Writer) (p : list byte) : bool :=
  (bufio_Available b <? Z.of_nat (length p))%Z && negb (non_nil (bw_err b)).

(** Which field of the writer holds the encoder. *)
Definition encoder_field (c : codec) (id : nat) (W : Writer) : Prop :=
  match c with
  | gzip => Writer_gz W = Some id /\ Writer_xw W = None /\ Writer_zw W = None
  | xz => Writer_gz W = None /\ Writer_xw W = Some id /\ Writer_zw W = None
  | zstd => Writer_gz W = None /\ Writer_xw W = None /\ Writer_zw W = Some id
  end.

(** [W] writes through an encoder of codec [c] into the file [name]; since
    it was opened the encoder has seen the operations [ops], the file holds
    what the encoder emitted, and [B] is what was written to [W]: the part
    the encoder has been given and the part still in the buffer. *)
Definition writing (env : Env) (c : codec) (name : string)
    (W : Writer) (w : World) (ops : list enc_op) (B : list byte) : Prop :=
  exists id,
    encoder_field c id W
    /\ bw_wr (Writer_Writer W) = ToEncoder c id
    /\ bw_err (Writer_Writer W) = None
    /\ sink_holds env c name (Writer_wtr W) id (OpNew :: ops) w
    /\ Forall in_session ops
    /\ payload ops ++ bw_buf (Writer_Writer W) = B.

(** The operations a flush of the writer asks of its encoder, after the
    buffer has been passed on. *)
Definition flush_ops (c : codec) : list enc_op :=
  match c with
  | xz => []
  | gzip | zstd => [OpFlush]
  end.

(** The suffix that selects the encoder. *)
Definition suffix_of (c : codec) : string :=
  match c with
  | gzip => ".gz"
  | xz => ".xz"
  | zstd => ".zst"
  end.

(** The mode of the parent of [f] when [WopenFile] opens [f]: the mode of
    the directory that is there, or [0755] less the mask for the one
    [WopenFile] makes. *)
Definition parent_mode (env : Env) (f : string) (w : World) : Z :=
  match fs w !! filepath_Dir env f with
  | Some (Directory dmode) => dmode
  | _ => created_mode env 0x1ed
  end.

(** The modes let the caller open [f] with [flag]: a file that is there
    permits the access, one that is not can be created in its parent. *)
Definition modes_permit (env : Env) (f : string) (flag : Z) (w : World) : Prop :=
  match fs w !! f with
  | Some (Regular mode _) => permitted env flag mode = true
  | Some (Directory _) => False
  | None =>
      may env (parent_mode env f w) S_IWUSR = true
      /\ may env (parent_mode env f w) S_IXUSR = true
  end.

(** What [WopenFile] needs from the file system to give a writer on an
    empty file: the parent of [f] is a directory or does not exist, [f] is
    not a directory, the flags create or truncate the file and allow
    writing, and the modes permit it. *)
Definition writable_target (env : Env) (f : string) (flag : Z) (w : World) : Prop :=
  String.eqb f "-" = false
  /\ filepath_Dir env f <> f
  /\ (forall mode d, fs w !! filepath_Dir env f <> Some (Regular mode d))
  /\ (forall mode, fs w !! f <> Some (Directory mode))
  /\ writable flag = true
  /\ has_flag flag O_CREATE = true
  /\ has_flag flag O_TRUNC = true
  /\ has_flag flag O_EXCL = false
  /\ modes_permit env f flag w.

(** The mode of the file [f] once [WopenFile] has opened it with [perm]: the
    mode it had, or [perm] less the mask when it is created. *)
Definition mode_after_open (env : Env) (f : string) (perm : Z) (w : World) : Z :=
  match fs w !! f with
  | Some (Regular mode _) => mode
  | _ => created_mode env perm
  end.

(** The caller may read [f] back after [WopenFile] opened it with [perm]. *)
Definition readable_back (env : Env) (f : string) (perm : Z) (w : World) : Prop :=
  may env (mode_after_open env f perm w) S_IRUSR = true.

(** The mode of an entry of the table. *)
Definition mode_of (w : World) (name : string) : option Z :=
  match fs w !! name with
  | Some (Directory mode) => Some mode
  | Some (Regular mode _) => Some mode
  | None => None
  end.

(** A computation that changes the mode of no entry, and neither adds nor
    removes one. *)
Definition keeps_modes {A} (m : M A) : Prop :=
  forall w name, mode_of (m w).2 name = mode_of w name.

(** A descriptor that [Ropen] treats as a path and does not rewrite: not
    "-", not empty, not starting with "|" or "~", not a URL. *)
Definition plain_path (f : string) : Prop :=
  String.eqb f "-" = false
  /\ (exists c, String.get 0 f = Some c /\ c <> "|"%char /\ c <> "~"%char)
  /\ strings_HasPrefix f "http://" = false
  /\ strings_HasPrefix f "https://" = false.

(** What the codecs must guarantee.  Whatever was written and flushed
    between [NewWriter] and [Close], the bytes the encoder emitted start with
    the codec's signature, are at least six (the longest signature [Buf]
    peeks for), and decode to the bytes written.  An encoder that was given
    no byte may also emit nothing at all, as the zstd encoder does. *)
Definition codec_sound (env : Env) (c : codec) : Prop :=
  forall ops, Forall in_session ops ->
    let out := enc_output env c (OpNew :: ops ++ [OpClose]) in
    (payload ops = [] /\ out = [])
    \/ (take (length (magic c)) out = magic c
        /\ (6 <= length out)%nat
        /\ codec_NewReader env c (mkStream out io_EOF)
           = ok (mkStream (payload ops) io_EOF)).

(** The bytes of a stream without a leading byte-order mark. *)
Definition without_BOM (B : list byte) : list byte :=
  if bool_decide (take 3 B = BOM_bytes) then drop 3 B else B.

(** The claim of the specification about the round trip, as it is worded:
    what is read back is exactly what was written. *)
Definition round_trip_exact (env : Env) (f : string) (flag perm : Z) (B : list byte)
    (w : World) : Prop :=
  read_back (write_then_read env f flag perm B w).1 = Some B.

(** The concrete world with an empty file "out.gz" in it. *)
Definition world_with_file : World :=
  set_fs (<["out.gz" := Regular 0x1a4 []]> (fs demo_world)) demo_world.

(** ** Writers without an encoder *)

(** The descriptor [fd] is open for writing on [t] and [t] holds [data]: a
    file of the table, with the descriptor at its end, or standard output. *)
Definition raw_holds (t : Target) (fd : File) (data : list byte) (w : World) : Prop :=
  exists flag, writable flag = true
    /\ match t with
       | OnPath name =>
           fds w !! fd = Some (mkDescriptor (OnPath name) flag (length data))
           /\ exists mode, fs w !! name = Some (Regular mode data)
       | OnStdout =>
           (exists pos, fds w !! fd = Some (mkDescriptor OnStdout flag pos))
           /\ stdout_data w = data
       | OnStdin => False
       end.

(** [W] writes into [t] through its buffer alone; [B] is what [t] holds
    followed by what is still in the buffer. *)
Definition writing_raw (t : Target) (W : Writer) (w : World) (B : list byte) : Prop :=
  Writer_gz W = None /\ Writer_xw W = None /\ Writer_zw W = None
  /\ bw_wr (Writer_Writer W) = ToFile (Writer_wtr W)
  /\ bw_err (Writer_Writer W) = None
  /\ exists data, raw_holds t (Writer_wtr W) data w
                  /\ data ++ bw_buf (Writer_Writer W) = B.

(** A name that selects no encoder. *)
Definition no_suffix (f : string) : Prop :=
  forall c, strings_HasSuffix (strings_ToLower f) (suffix_of c) = false.

(** Open [f] with [WopenFile], write [B], close. *)
Definition write_all (env : Env) (f : string) (flag perm : Z) (B : list byte)
  : M (option error) :=
  '(w, err) ← WopenFile env f flag perm;
  match w with
  | None => mret err
  | Some w =>
      '(_, w) ← Writer_Write env w B;
      Writer_Close env w
  end.

(** What the target holds: the bytes of the file, or standard output. *)
Definition held (t : Target) (w : World) : option (list byte) :=
  match t with
  | OnPath name =>
      match fs w !! name with
      | Some (Regular _ data) => Some data
      | _ => None
      end
  | OnStdout => Some (stdout_data w)
  | OnStdin => None
  end.

(** Standard output is open for writing. *)
Definition stdout_open (w : World) : Prop :=
  exists flag pos, writable flag = true
    /\ fds w !! os_Stdout = Some (mkDescriptor OnStdout flag pos).

(** ** Further concrete inputs *)

(** Whether the byte [c] occurs in [s]. *)
Fixpoint has_char (c : ascii) (s : string) : bool :=
  match s with
  | EmptyString => false
  | String a s' => Ascii.eqb a c || has_char c s'
  end.

(** The concrete world with a file "notes.txt" that holds "hello world". *)
Definition hello_world : list byte :=
  [x68; x65; x6c; x6c; x6f; x20; x77; x6f; x72; x6c; x64].

Definition world_with_notes : World :=
  set_fs (<["notes.txt" := Regular 0x1a4 hello_world]> (fs demo_world)) demo_world.

(** The concrete environment with a web server that answers one address
    with "hello world" and every other one with status 404. *)
Definition web_env : Env := {|
  codec_NewReader := stored_NewReader;
  codec_emit := stored_emit;
  filepath_Dir := clean_Dir;
  user_Current := ok (mkUser "/home/me");
  user_Lookup := fun _ => fail (ErrExternal "user: unknown user");
  stdin_Stat := ok os_ModeCharDevice;
  stdin_stream := mkStream [] io_EOF;
  http_Get := fun url =>
    if String.eqb url "http://example.org/notes.txt"
    then ok (200%Z, "200 OK", mkStream hello_world io_EOF)
    else ok (404%Z, "404 Not Found", mkStream [] io_EOF);
  exec_StdoutPipe := fun _ _ => None;
  exec_Start := fun _ _ => ok (mkStream [] io_EOF);
  umask := 0x12;
  privileged := false;
  fault := fun _ => None
|}.

(** The concrete environment on a full disk: every write to a file fails. *)
Definition full_disk_env : Env := {|
  codec_NewReader := stored_NewReader;
  codec_emit := stored_emit;
  filepath_Dir := clean_Dir;
  user_Current := ok (mkUser "/home/me");
  user_Lookup := fun _ => fail (ErrExternal "user: unknown user");
  stdin_Stat := ok os_ModeCharDevice;
  stdin_stream := mkStream [] io_EOF;
  http_Get := fun _ => fail (ErrExternal "no network");
  exec_StdoutPipe := fun _ _ => None;
  exec_Start := fun _ _ => ok (mkStream [] io_EOF);
  umask := 0x12;
  privileged := false;
  fault := fun c =>
    match c with
    | CallFileWrite _ => Some (ErrExternal "no space left on device")
    | _ => None
    end
|}.

(** What [Ropen] returns once it has the command of a pipe descriptor: the
    error of the pipe or of the start, or [Buf] on the child's output. *)
Definition spawned (env : Env) (name : string) (arg : list string)
  : option Reader * option error :=
  match exec_StdoutPipe env name arg with
  | Some err => (None, Some err)
  | None =>
      match exec_Start env name arg with
      | fail err => (None, Some err)
      | ok out => Buf env (PipeReader name arg out)
      end
  end.

(** * Properties *)

(** ** Exhaustive checks over bytes *)

Lemma all_bytes_complete (c : byte) : c ∈ all_bytes.
Proof.
  change all_bytes with (omap (fun n => Byte.of_N (N.of_nat n)) (seq 0 256)).
  apply list_elem_of_omap. exists (N.to_nat (Byte.to_N c)). split.
  - apply elem_of_seq. pose proof (Byte.to_N_bounded c). lia.
  - rewrite N2Nat.id. apply Byte.of_to_N.
Qed.

Lemma forallb_all_bytes (f : byte -> bool) :
  forallb f all_bytes = true -> forall c, f c = true.
Proof.
  intros H c. rewrite forallb_forall in H. apply H.
  apply list_elem_of_In, all_bytes_complete.
Qed.

Ltac each_byte :=
  lazymatch goal with
  | |- forall c : byte, @?f c = true =>
      apply (forallb_all_bytes f); vm_compute; reflexivity
  end.

Lemma one_byte_not_BOM :
  forall c, (let p0 := byteZ c in
             let x := utf8_first p0 in
             let mask := if Z.odd x then (-1)%Z else 0%Z in
             negb (Z.lor (Z.land p0 (Z.lnot mask)) (Z.land utf8_RuneError mask) =? BOM)%Z) = true.
Proof. each_byte. Qed.

Lemma ascii_not_BOM : forall c, negb (byteZ c =? BOM)%Z = true.
Proof. each_byte. Qed.

Lemma two_byte_not_BOM :
  forall c0,
    (let x := utf8_first (byteZ c0) in
     if negb (0xF0 <=? x)%Z && (Z.land x 7 <=? 2)%Z
     then forallb (fun c1 =>
            negb (Z.lor (Z.shiftl (Z.land (byteZ c0) 0x1F) 6) (Z.land (byteZ c1) 0x3F) =? BOM)%Z)
            all_bytes
     else true) = true.
Proof. each_byte. Qed.

Lemma three_byte_BOM :
  forall c0,
    (let x := utf8_first (byteZ c0) in
     if negb (0xF0 <=? x)%Z && negb (Z.land x 7 <=? 2)%Z && (Z.land x 7 <=? 3)%Z
     then forallb (fun c1 =>
            if accept_ok c0 c1
            then forallb (fun c2 =>
                   if cont_ok c2
                   then implb (Z.lor (Z.lor (Z.shiftl (Z.land (byteZ c0) 0x0F) 12)
                                            (Z.shiftl (Z.land (byteZ c1) 0x3F) 6))
                                     (Z.land (byteZ c2) 0x3F) =? BOM)%Z
                              (Byte.eqb c0 xef && Byte.eqb c1 xbb && Byte.eqb c2 xbf)
                   else true) all_bytes
            else true) all_bytes
     else true) = true.
Proof. each_byte. Qed.

Lemma four_byte_low_parts :
  forall c, ((Z.shiftr (Z.shiftl (Z.land (byteZ c) 0x3F) 6) 12 =? 0)%Z
             && (Z.shiftr (Z.land (byteZ c) 0x3F) 12 =? 0)%Z) = true.
Proof. each_byte. Qed.

Lemma four_byte_high_parts :
  forall c0,
    (let x := utf8_first (byteZ c0) in
     if negb (0xF0 <=? x)%Z && negb (Z.land x 7 <=? 3)%Z
     then forallb (fun c1 =>
            implb (accept_ok c0 c1)
                  (negb (Z.lor (Z.shiftr (Z.shiftl (Z.land (byteZ c0) 0x07) 18) 12)
                               (Z.shiftr (Z.shiftl (Z.land (byteZ c1) 0x3F) 12) 12)
                         =? Z.shiftr BOM 12)%Z)) all_bytes
     else true) = true.
Proof. each_byte. Qed.

Lemma first_size_bounds :
  forall c, (let x := utf8_first (byteZ c) in
             (0xF0 <=? x)%Z || ((2 <=? Z.land x 7)%Z && (Z.land x 7 <=? 4)%Z)) = true.
Proof. each_byte. Qed.

(** ** The byte-order mark in UTF-8 *)

Lemma RuneError_not_BOM (n sz : nat) : (utf8_RuneError, n) = (BOM, sz) -> False.
Proof. intros H. apply (f_equal fst) in H. vm_compute in H. discriminate. Qed.

Lemma two_byte_value c0 c1 :
  (0xF0 <=? utf8_first (byteZ c0))%Z = false ->
  (Z.land (utf8_first (byteZ c0)) 7 <=? 2)%Z = true ->
  Z.lor (Z.shiftl (Z.land (byteZ c0) 0x1F) 6) (Z.land (byteZ c1) 0x3F) <> BOM.
Proof.
  intros Hx Hs. pose proof (two_byte_not_BOM c0) as H. cbv zeta in H.
  rewrite Hx, Hs in H. cbn [negb andb] in H.
  pose proof (forallb_all_bytes _ H c1) as H'. cbv beta in H'.
  apply negb_true_iff, Z.eqb_neq in H'. exact H'.
Qed.

Lemma three_byte_value c0 c1 c2 :
  (0xF0 <=? utf8_first (byteZ c0))%Z = false ->
  (Z.land (utf8_first (byteZ c0)) 7 <=? 2)%Z = false ->
  (Z.land (utf8_first (byteZ c0)) 7 <=? 3)%Z = true ->
  accept_ok c0 c1 = true -> cont_ok c2 = true ->
  Z.lor (Z.lor (Z.shiftl (Z.land (byteZ c0) 0x0F) 12)
               (Z.shiftl (Z.land (byteZ c1) 0x3F) 6))
        (Z.land (byteZ c2) 0x3F) = BOM ->
  c0 = xef /\ c1 = xbb /\ c2 = xbf.
Proof.
  intros Hx Hs2 Hs3 Ha Hc Hv. pose proof (three_byte_BOM c0) as H. cbv zeta in H.
  rewrite Hx, Hs2, Hs3 in H. cbn [negb andb] in H.
  pose proof (forallb_all_bytes _ H c1) as H'. cbv beta in H'. rewrite Ha in H'.
  pose proof (forallb_all_bytes _ H' c2) as H''. cbv beta in H''.
  rewrite Hc, Hv, Z.eqb_refl in H''. cbn [implb] in H''.
  apply andb_prop in H'' as [H3a Hb2]. apply andb_prop in H3a as [Hb0 Hb1].
  apply Byte.byte_dec_bl in Hb0, Hb1, Hb2. auto.
Qed.

Lemma four_byte_value c0 c1 c2 c3 :
  (0xF0 <=? utf8_first (byteZ c0))%Z = false ->
  (Z.land (utf8_first (byteZ c0)) 7 <=? 3)%Z = false ->
  accept_ok c0 c1 = true ->
  Z.lor (Z.lor (Z.lor (Z.shiftl (Z.land (byteZ c0) 0x07) 18)
                      (Z.shiftl (Z.land (byteZ c1) 0x3F) 12))
               (Z.shiftl (Z.land (byteZ c2) 0x3F) 6))
        (Z.land (byteZ c3) 0x3F) <> BOM.
Proof.
  intros Hx Hs3 Ha Hv. pose proof (four_byte_high_parts c0) as H. cbv zeta in H.
  rewrite Hx, Hs3 in H. cbn [negb andb] in H.
  pose proof (forallb_all_bytes _ H c1) as H'. cbv beta in H'. rewrite Ha in H'.
  cbn [implb] in H'. apply negb_true_iff, Z.eqb_neq in H'. apply H'.
  apply (f_equal (fun v => Z.shiftr v 12)) in Hv.
  rewrite !Z.shiftr_lor in Hv.
  pose proof (four_byte_low_parts c2) as L2. apply andb_prop in L2 as [L2 _].
  pose proof (four_byte_low_parts c3) as L3. apply andb_prop in L3 as [_ L3].
  apply Z.eqb_eq in L2, L3. rewrite L2, L3, !Z.lor_0_r in Hv. exact Hv.
Qed.

Lemma first_size c :
  (0xF0 <=? utf8_first (byteZ c))%Z = false ->
  (2 <= Z.land (utf8_first (byteZ c)) 7 <= 4)%Z.
Proof.
  intros Hx. pose proof (first_size_bounds c) as H. cbv zeta in H.
  rewrite Hx in H. cbn [orb] in H. apply andb_prop in H as [H1 H2].
  apply Z.leb_le in H1, H2. lia.
Qed.

(** [DecodeRune] yields the byte-order mark only for the bytes EF BB BF. *)
Lemma utf8_DecodeRune_BOM_inv p sz :
  utf8_DecodeRune p = (BOM, sz) -> exists rest, p = BOM_bytes ++ rest.
Proof.
  unfold utf8_DecodeRune.
  destruct p as [|c0 p].
  { intros H. vm_compute in H. discriminate. }
  destruct (Z.ltb_spec (Z.of_nat (length (c0 :: p))) 1) as [Hn|_].
  { cbn [length] in Hn. lia. }
  change (byte_at (c0 :: p) 0) with (byteZ c0).
  cbv zeta.
  destruct (0xF0 <=? utf8_first (byteZ c0))%Z eqn:Hx.
  { intros H. apply (f_equal fst) in H. cbn [fst] in H.
    pose proof (one_byte_not_BOM c0) as H1. cbv zeta in H1.
    rewrite H in H1. vm_compute in H1. discriminate. }
  pose proof (first_size c0 Hx) as Hsz.
  destruct (Z.ltb_spec (Z.of_nat (length (c0 :: p))) (Z.land (utf8_first (byteZ c0)) 7))
    as [_|Hlen].
  { intros H; destruct (RuneError_not_BOM _ _ H). }
  destruct p as [|c1 p]; [cbn [length] in Hlen; lia|].
  change (byte_at (c0 :: c1 :: p) 1) with (byteZ c1).
  replace ((byteZ c1 <? fst (utf8_acceptRanges (Z.shiftr (utf8_first (byteZ c0)) 4)))%Z
          || (snd (utf8_acceptRanges (Z.shiftr (utf8_first (byteZ c0)) 4)) <? byteZ c1)%Z)
    with (negb (accept_ok c0 c1))
    by (unfold accept_ok; cbv zeta; apply negb_involutive).
  destruct (accept_ok c0 c1) eqn:Ha; cbn [negb].
  2:{ intros H; destruct (RuneError_not_BOM _ _ H). }
  destruct (Z.land (utf8_first (byteZ c0)) 7 <=? 2)%Z eqn:Hs2.
  { intros H. apply (f_equal fst) in H. cbn [fst] in H.
    destruct (two_byte_value c0 c1 Hx Hs2 H). }
  destruct p as [|c2 p]; [cbn [length] in Hlen; apply Z.leb_gt in Hs2; lia|].
  change (byte_at (c0 :: c1 :: c2 :: p) 2) with (byteZ c2).
  replace ((byteZ c2 <? 128)%Z || (191 <? byteZ c2)%Z) with (negb (cont_ok c2))
    by (unfold cont_ok; apply negb_involutive).
  destruct (cont_ok c2) eqn:Hc2; cbn [negb].
  2:{ intros H; destruct (RuneError_not_BOM _ _ H). }
  destruct (Z.land (utf8_first (byteZ c0)) 7 <=? 3)%Z eqn:Hs3.
  { intros H. apply (f_equal fst) in H. cbn [fst] in H.
    destruct (three_byte_value c0 c1 c2 Hx Hs2 Hs3 Ha Hc2 H) as (-> & -> & ->).
    exists p. reflexivity. }
  destruct p as [|c3 p]; [cbn [length] in Hlen; apply Z.leb_gt in Hs3; lia|].
  change (byte_at (c0 :: c1 :: c2 :: c3 :: p) 3) with (byteZ c3).
  destruct ((byteZ c3 <? 128)%Z || (191 <? byteZ c3)%Z).
  { intros H; destruct (RuneError_not_BOM _ _ H). }
  intros H. apply (f_equal fst) in H. cbn [fst] in H.
  destruct (four_byte_value c0 c1 c2 c3 Hx Hs3 Ha H).
Qed.

Lemma utf8_DecodeRune_BOM rest : utf8_DecodeRune (BOM_bytes ++ rest) = (BOM, 3%nat).
Proof.
  unfold utf8_DecodeRune.
  destruct (Z.ltb_spec (Z.of_nat (length (BOM_bytes ++ rest))) 1) as [Hn|_].
  { cbn [length BOM_bytes app] in Hn. lia. }
  change (byte_at (BOM_bytes ++ rest) 0) with 0xEF%Z.
  change (byte_at (BOM_bytes ++ rest) 1) with 0xBB%Z.
  change (byte_at (BOM_bytes ++ rest) 2) with 0xBF%Z.
  cbv zeta.
  change (utf8_first 239) with 3%Z.
  change (240 <=? 3)%Z with false. cbv iota.
  change (Z.land 3 7) with 3%Z.
  destruct (Z.ltb_spec (Z.of_nat (length (BOM_bytes ++ rest))) 3) as [Hn|_].
  { cbn [length BOM_bytes app] in Hn. lia. }
  reflexivity.
Qed.

(** ** Reading the first rune *)
Lemma bufio_ReadRune_empty b :
  br_data b = [] ->
  bufio_ReadRune b = (0%Z, 0%nat, Some (br_end b), mkBufReader (br_size b) [] (br_end b) None).
Proof. intros H. unfold bufio_ReadRune. rewrite H. reflexivity. Qed.

Lemma bufio_ReadRune_BOM b rest :
  br_data b = BOM_bytes ++ rest ->
  bufio_ReadRune b
  = (BOM, 3%nat, None, mkBufReader (br_size b) rest (br_end b) (Some BOM_bytes)).
Proof.
  intros H. unfold bufio_ReadRune. rewrite H.
  change (BOM_bytes ++ rest) with (xef :: (xbb :: xbf :: rest)) at 1.
  cbv iota beta.
  change (utf8_RuneSelf <=? byteZ xef)%Z with true. cbv iota.
  rewrite utf8_DecodeRune_BOM. reflexivity.
Qed.

Lemma bufio_ReadRune_some b c l :
  br_data b = c :: l ->
  exists t size,
    bufio_ReadRune b
    = (t, size, None,
       mkBufReader (br_size b) (drop size (br_data b)) (br_end b)
                   (Some (take size (br_data b))))
    /\ (t = BOM -> exists rest, br_data b = BOM_bytes ++ rest).
Proof.
  intros H. unfold bufio_ReadRune. rewrite H.
  destruct (utf8_RuneSelf <=? byteZ c)%Z.
  - destruct (utf8_DecodeRune (c :: l)) as [t size] eqn:Hd.
    exists t, size. split; [reflexivity|].
    intros ->. exact (utf8_DecodeRune_BOM_inv _ _ Hd).
  - exists (byteZ c), 1%nat. split; [reflexivity|].
    intros Hc. pose proof (ascii_not_BOM c) as Hn.
    rewrite Hc in Hn. vm_compute in Hn. discriminate.
Qed.

(** The first rune of a non-empty stream is the byte-order mark exactly when
    the stream starts with EF BB BF. *)
Lemma first_rune_BOM_iff b :
  br_data b <> [] ->
  (bufio_ReadRune b).1.1.1 = BOM <-> exists rest, br_data b = BOM_bytes ++ rest.
Proof.
  intros Hne. split.
  - destruct (br_data b) as [|c l] eqn:Hd; [contradiction|].
    destruct (bufio_ReadRune_some b c l Hd) as (t & size & Hr & Hinv).
    rewrite Hr. cbn [fst]. rewrite <- Hd. exact Hinv.
  - intros [rest Hrest]. rewrite (bufio_ReadRune_BOM b rest Hrest). reflexivity.
Qed.

(** ** The byte-order-mark stage *)
Lemma Buf_BOM_empty b r rdr :
  br_data b = [] -> Buf_BOM b r rdr = (None, Some ErrNoContent).
Proof.
  intros H. unfold Buf_BOM. rewrite (bufio_ReadRune_empty b H). reflexivity.
Qed.

Lemma Buf_BOM_strip b r rdr rest :
  br_data b = BOM_bytes ++ rest ->
  Buf_BOM b r rdr
  = (Some (mkReader (mkBufReader (br_size b) rest (br_end b) (Some BOM_bytes)) r rdr), None).
Proof.
  intros H. unfold Buf_BOM. rewrite (bufio_ReadRune_BOM b rest H).
  cbn [non_nil]. rewrite Z.eqb_refl. reflexivity.
Qed.

Lemma Buf_BOM_keep b r rdr :
  br_data b <> [] -> (bufio_ReadRune b).1.1.1 <> BOM ->
  Buf_BOM b r rdr
  = (Some (mkReader (mkBufReader (br_size b) (br_data b) (br_end b) None) r rdr), None).
Proof.
  intros Hne Hrune. unfold Buf_BOM.
  destruct (br_data b) as [|c l] eqn:Hd; [contradiction|].
  destruct (bufio_ReadRune_some b c l Hd) as (t & size & Hr & _).
  rewrite Hr in Hrune |- *. cbn [fst] in Hrune. cbn [non_nil].
  apply Z.eqb_neq in Hrune. rewrite Hrune. cbn [negb].
  unfold bufio_UnreadRune. cbn [br_lastRune snd br_size br_data br_end].
  rewrite Hd, take_drop. reflexivity.
Qed.

(** ** Sniffing *)
Lemma CheckBytes_loop_eq m buf :
  length m = length buf -> CheckBytes_loop m buf = Some (bool_decide (m = buf)).
Proof.
  revert m. induction buf as [|x buf IH]; intros [|y m] Hlen; try discriminate.
  - reflexivity.
  - cbn [CheckBytes_loop]. destruct (Byte.eqb y x) eqn:E.
    + apply Byte.byte_dec_bl in E. subst y. rewrite IH by (cbn in Hlen; lia).
      f_equal. apply bool_decide_ext. split; [intros ->; reflexivity|].
      intros H. inversion H. reflexivity.
    + f_equal. symmetry. apply bool_decide_eq_false. intros H. inversion H. subst.
      rewrite (Byte.byte_dec_lb eq_refl) in E. discriminate.
Qed.

Lemma CheckBytes_short b buf :
  (Z.of_nat (length buf) <= br_size b)%Z ->
  (length (br_data b) < length buf)%nat ->
  CheckBytes b buf = (false, Some ErrNoContent, peeked b).
Proof.
  intros Hsz Hlen. unfold CheckBytes, bufio_Peek.
  destruct (Z.ltb_spec (Z.of_nat (length buf)) 0); [lia|].
  destruct (Z.ltb_spec (br_size b) (Z.of_nat (length buf))); [lia|].
  destruct (Z.ltb_spec (Z.of_nat (length (br_data b))) (Z.of_nat (length buf))); [|lia].
  reflexivity.
Qed.

Lemma CheckBytes_long b buf :
  (Z.of_nat (length buf) <= br_size b)%Z ->
  (length buf <= length (br_data b))%nat ->
  CheckBytes b buf
  = (bool_decide (take (length buf) (br_data b) = buf), None, peeked b).
Proof.
  intros Hsz Hlen. unfold CheckBytes, bufio_Peek.
  destruct (Z.ltb_spec (Z.of_nat (length buf)) 0); [lia|].
  destruct (Z.ltb_spec (br_size b) (Z.of_nat (length buf))); [lia|].
  destruct (Z.ltb_spec (Z.of_nat (length (br_data b))) (Z.of_nat (length buf))); [lia|].
  rewrite Nat2Z.id, CheckBytes_loop_eq; [reflexivity|].
  rewrite length_take. lia.
Qed.

Lemma CheckBytes_oversized b buf :
  (br_size b < Z.of_nat (length buf))%Z ->
  (CheckBytes b buf).1 = (false, Some ErrNoContent).
Proof.
  intros Hsz. unfold CheckBytes, bufio_Peek.
  destruct (Z.ltb_spec (Z.of_nat (length buf)) 0); [lia|].
  destruct (Z.ltb_spec (br_size b) (Z.of_nat (length buf))); [|lia].
  reflexivity.
Qed.

(** C7, counterexample.  On a stream whose first read fails, the peek
    reports the read failure and [CheckBytes] turns it into [ErrNoContent],
    the very value it gives for an empty stream. *)
Lemma CheckBytes_read_failure_is_no_content :
  (bufio_Peek (bufio_NewReaderSize failing_stream bufSize) 2).1.2
    = Some (ErrExternal "read failure")
  /\ (CheckBytes (bufio_NewReaderSize failing_stream bufSize) gzip_magic).1.2
    = Some ErrNoContent
  /\ ~ sniff_separates_failure_from_end
         (bufio_NewReaderSize failing_stream bufSize) gzip_magic.
Proof.
  split; [reflexivity|]. split; [reflexivity|].
  intros [_ H]. destruct H as (e & He & Hne).
  - cbn. lia.
  - discriminate.
  - vm_compute in He. congruence.
Qed.

Lemma CheckBytes_cases (b : bufio_Reader) (buf : list byte) :
  ((CheckBytes b buf).1 = (false, Some ErrNoContent)
   /\ ((length (br_data b) < length buf)%nat \/ (br_size b < Z.of_nat (length buf))%Z))
  \/ ((CheckBytes b buf).1
      = (bool_decide (take (length buf) (br_data b) = buf), None)
      /\ (length buf <= length (br_data b))%nat
      /\ (Z.of_nat (length buf) <= br_size b)%Z).
Proof.
  destruct (Z.lt_ge_cases (br_size b) (Z.of_nat (length buf))) as [Hs|Hs].
  { left. split; [apply CheckBytes_oversized; exact Hs | right; exact Hs]. }
  destruct (Nat.lt_ge_cases (length (br_data b)) (length buf)) as [Hl|Hl].
  - left. rewrite CheckBytes_short by assumption. split; [reflexivity | left; exact Hl].
  - right. rewrite CheckBytes_long by assumption. auto.
Qed.

Lemma CheckBytes_ignores_ending b buf e :
  (CheckBytes (mkBufReader (br_size b) (br_data b) e (br_lastRune b)) buf).1
  = (CheckBytes b buf).1.
Proof.
  unfold CheckBytes, bufio_Peek. cbn [br_size br_data br_end].
  destruct (Z.of_nat (length buf) <? 0)%Z; [reflexivity|].
  destruct (br_size b <? Z.of_nat (length buf))%Z; [reflexivity|].
  destruct (Z.of_nat (length (br_data b)) <? Z.of_nat (length buf))%Z; [reflexivity|].
  destruct (CheckBytes_loop _ _); reflexivity.
Qed.

(** C7, as the code has it.  [CheckBytes] returns [ErrNoContent] exactly when
    the peek cannot supply [len(buf)] bytes: the stream stops before that
    many bytes, whatever stops it, or the request exceeds the buffer.  It
    returns no other error, and the error that ended the stream has no
    influence on the result; when the bytes are there the flag says whether
    they equal [buf]. *)
Theorem CheckBytes_no_content (b : bufio_Reader) (buf : list byte) :
  (((CheckBytes b buf).1 = (false, Some ErrNoContent)
    /\ ((length (br_data b) < length buf)%nat \/ (br_size b < Z.of_nat (length buf))%Z))
   \/ ((CheckBytes b buf).1
       = (bool_decide (take (length buf) (br_data b) = buf), None)
       /\ (length buf <= length (br_data b))%nat
       /\ (Z.of_nat (length buf) <= br_size b)%Z))
  /\ forall e,
       (CheckBytes (mkBufReader (br_size b) (br_data b) e (br_lastRune b)) buf).1
       = (CheckBytes b buf).1.
Proof.
  split; [apply CheckBytes_cases | intros e; apply CheckBytes_ignores_ending].
Qed.

(** ** The sniffing stage of [Buf], case by case *)

Lemma fresh_reader_size r : br_size (fresh_reader r) = 65536%Z.
Proof. reflexivity. Qed.

Lemma peeked_stream r : br_stream (peeked (fresh_reader r)) = reader_stream r.
Proof.
  unfold br_stream, peeked, fresh_reader, bufio_NewReaderSize. cbn.
  destruct (reader_stream r); reflexivity.
Qed.

Ltac sniff_long :=
  rewrite CheckBytes_long by (cbn [length br_size br_data fresh_reader peeked
    bufio_NewReaderSize gzip_magic xz_magic zstd_magic] in *; lia).
Ltac sniff_short :=
  rewrite CheckBytes_short by (cbn [length br_size br_data fresh_reader peeked
    bufio_NewReaderSize gzip_magic xz_magic zstd_magic] in *; lia).

Lemma take_eq_length {A} (n : nat) (l m : list A) :
  take n l = m -> length m = n -> (n <= length l)%nat.
Proof. intros <- H. rewrite length_take in H. lia. Qed.

Lemma Buf_sniff_gzip env r :
  take 2 (avail (reader_stream r)) = gzip_magic ->
  Buf_sniff env r
  = match codec_NewReader env gzip (reader_stream r) with
    | fail err => inr (Some err)
    | ok rdr => inl (bufio_NewReaderSize rdr bufSize, Some gzip)
    end.
Proof.
  intros H. pose proof (take_eq_length _ _ _ H eq_refl) as Hlen.
  unfold Buf_sniff, IsGzip. fold (fresh_reader r).
  sniff_long. cbn [br_data fresh_reader bufio_NewReaderSize length gzip_magic].
  rewrite bool_decide_eq_true_2 by exact H.
  cbn [non_nil is_EOF andb negb]. rewrite peeked_stream. reflexivity.
Qed.

Lemma Buf_sniff_short env r :
  (length (avail (reader_stream r)) < 6)%nat ->
  take 2 (avail (reader_stream r)) <> gzip_magic ->
  Buf_sniff env r = inr (Some ErrNoContent).
Proof.
  intros Hlen Hgz. unfold Buf_sniff, IsGzip, IsXz. fold (fresh_reader r).
  destruct (Nat.lt_ge_cases (length (avail (reader_stream r))) 2).
  - sniff_short. reflexivity.
  - sniff_long. cbn [br_data fresh_reader bufio_NewReaderSize length gzip_magic].
    rewrite bool_decide_eq_false_2 by exact Hgz.
    cbn [non_nil is_EOF andb negb]. sniff_short. reflexivity.
Qed.

Lemma Buf_sniff_xz env r :
  take 6 (avail (reader_stream r)) = xz_magic ->
  Buf_sniff env r
  = match codec_NewReader env xz (reader_stream r) with
    | fail err => inr (Some err)
    | ok rd => inl (bufio_NewReaderSize rd bufSize, None)
    end.
Proof.
  intros H. pose proof (take_eq_length _ _ _ H eq_refl) as Hlen.
  unfold Buf_sniff, IsGzip, IsXz. fold (fresh_reader r).
  sniff_long. cbn [br_data fresh_reader bufio_NewReaderSize length gzip_magic].
  rewrite bool_decide_eq_false_2.
  2:{ intros Hg. apply (f_equal (take 2)) in H. rewrite take_take in H.
      cbn [Nat.min] in H. rewrite Hg in H. discriminate. }
  cbn [non_nil is_EOF andb negb]. sniff_long.
  cbn [br_data peeked fresh_reader bufio_NewReaderSize length xz_magic].
  rewrite bool_decide_eq_true_2 by exact H.
  cbn [non_nil is_EOF andb negb].
  change (peeked (peeked (fresh_reader r))) with (peeked (fresh_reader r)).
  rewrite peeked_stream. reflexivity.
Qed.

Lemma Buf_sniff_zstd env r :
  (6 <= length (avail (reader_stream r)))%nat ->
  take 4 (avail (reader_stream r)) = zstd_magic ->
  Buf_sniff env r
  = match codec_NewReader env zstd (reader_stream r) with
    | fail err => inr (Some err)
    | ok rd => inl (bufio_NewReaderSize rd bufSize, None)
    end.
Proof.
  intros Hlen H.
  unfold Buf_sniff, IsGzip, IsXz, IsZst. fold (fresh_reader r).
  sniff_long. cbn [br_data fresh_reader bufio_NewReaderSize length gzip_magic].
  rewrite bool_decide_eq_false_2.
  2:{ intros Hg. apply (f_equal (take 2)) in H. rewrite take_take in H.
      cbn [Nat.min] in H. rewrite Hg in H. discriminate. }
  cbn [non_nil is_EOF andb negb]. sniff_long.
  cbn [br_data peeked fresh_reader bufio_NewReaderSize length xz_magic].
  rewrite bool_decide_eq_false_2.
  2:{ intros Hx. apply (f_equal (take 4)) in Hx. rewrite take_take in Hx.
      cbn [Nat.min] in Hx. rewrite H in Hx. discriminate. }
  cbn [non_nil is_EOF andb negb]. sniff_long.
  cbn [br_data peeked fresh_reader bufio_NewReaderSize length zstd_magic].
  rewrite bool_decide_eq_true_2 by exact H.
  cbn [non_nil is_EOF andb negb].
  change (peeked (peeked (peeked (fresh_reader r)))) with (peeked (fresh_reader r)).
  rewrite peeked_stream. reflexivity.
Qed.

Lemma Buf_sniff_plain env r :
  (6 <= length (avail (reader_stream r)))%nat ->
  take 2 (avail (reader_stream r)) <> gzip_magic ->
  take 6 (avail (reader_stream r)) <> xz_magic ->
  take 4 (avail (reader_stream r)) <> zstd_magic ->
  Buf_sniff env r = inl (peeked (fresh_reader r), None).
Proof.
  intros Hlen Hg Hx Hz.
  unfold Buf_sniff, IsGzip, IsXz, IsZst. fold (fresh_reader r).
  sniff_long. cbn [br_data fresh_reader bufio_NewReaderSize length gzip_magic].
  rewrite bool_decide_eq_false_2 by exact Hg.
  cbn [non_nil is_EOF andb negb]. sniff_long.
  cbn [br_data peeked fresh_reader bufio_NewReaderSize length xz_magic].
  rewrite bool_decide_eq_false_2 by exact Hx.
  cbn [non_nil is_EOF andb negb]. sniff_long.
  cbn [br_data peeked fresh_reader bufio_NewReaderSize length zstd_magic].
  rewrite bool_decide_eq_false_2 by exact Hz.
  reflexivity.
Qed.

(** ** The decoding pipeline as a whole *)

(** A plain stream shorter than the xz signature is refused: the sniff that
    runs out of bytes reports [ErrNoContent], which is not [io.EOF]. *)
Lemma Buf_short_plain_stream env r :
  (length (avail (reader_stream r)) < 6)%nat ->
  take 2 (avail (reader_stream r)) <> gzip_magic ->
  Buf env r = (None, Some ErrNoContent).
Proof.
  intros Hlen Hg. unfold Buf. rewrite Buf_sniff_short by assumption. reflexivity.
Qed.

(** An empty stream is refused in the same way. *)
Lemma Buf_empty_stream env r :
  avail (reader_stream r) = [] -> Buf env r = (None, Some ErrNoContent).
Proof.
  intros H. apply Buf_short_plain_stream; rewrite H; cbn; [lia | discriminate].
Qed.

(** A plain stream of six bytes or more goes to the byte-order-mark check
    as it is. *)
Lemma Buf_plain_stream env r :
  (6 <= length (avail (reader_stream r)))%nat ->
  take 2 (avail (reader_stream r)) <> gzip_magic ->
  take 6 (avail (reader_stream r)) <> xz_magic ->
  take 4 (avail (reader_stream r)) <> zstd_magic ->
  Buf env r = Buf_BOM (peeked (fresh_reader r)) r None.
Proof.
  intros. unfold Buf. rewrite Buf_sniff_plain by assumption. reflexivity.
Qed.

(** C2, the code at two failing inputs.  A stream holding the single byte
    "a", and one holding "hello", match no signature and are not empty, yet
    [Buf] refuses both with [ErrNoContent]: the guard [err != io.EOF] never
    sees [io.EOF], because [CheckBytes] has already replaced it. *)
Theorem Buf_refuses_short_plain_streams (env : Env) :
  Buf env (BareReader (mkStream [x61] io_EOF)) = (None, Some ErrNoContent)
  /\ Buf env (BareReader (mkStream [x68; x65; x6c; x6c; x6f] io_EOF))
     = (None, Some ErrNoContent).
Proof.
  split; apply Buf_short_plain_stream; cbn; try lia; discriminate.
Qed.

(** C10, the code at failing inputs.  A stream that holds the byte-order
    mark alone, the mark followed by "hi", or "hi" alone is refused with
    [ErrNoContent] by the sniffing stage, before the check of the first rune
    is reached: the mark is not discarded and the other content is not
    preserved.  On a stream of eight bytes the same mark is discarded and the
    rest is read. *)
Theorem Buf_refuses_short_marked_streams (env : Env) :
  Buf env (BareReader (mkStream BOM_bytes io_EOF)) = (None, Some ErrNoContent)
  /\ Buf env (BareReader (mkStream (BOM_bytes ++ [x68; x69]) io_EOF))
     = (None, Some ErrNoContent)
  /\ Buf env (BareReader (mkStream [x68; x69] io_EOF)) = (None, Some ErrNoContent)
  /\ exists rd,
       Buf env (BareReader (mkStream (BOM_bytes ++ [x68; x65; x6c; x6c; x6f]) io_EOF))
       = (Some rd, None)
       /\ Reader_stream rd = mkStream [x68; x65; x6c; x6c; x6f] io_EOF.
Proof.
  split; [|split; [|split]];
    try (apply Buf_short_plain_stream; cbn; try lia; discriminate).
  rewrite Buf_plain_stream by (cbn; try lia; discriminate).
  rewrite (Buf_BOM_strip _ _ _ [x68; x65; x6c; x6c; x6f]) by reflexivity.
  eexists. split; reflexivity.
Qed.

(** ** Traces of calls *)

Lemma emits_ret {A} (a : A) : emits (mret a) [].
Proof. intros w. cbn. rewrite app_nil_r. reflexivity. Qed.

Lemma emits_bind {A B} (m : M A) (k : A -> M B) t1 t2 :
  emits m t1 -> (forall a, emits (k a) t2) -> emits (m ≫= k) (t1 ++ t2).
Proof.
  intros Hm Hk w. unfold mbind, M_bind.
  specialize (Hm w). destruct (m w) as [a w']. cbn [snd] in Hm.
  rewrite (Hk a w'), Hm, app_assoc. reflexivity.
Qed.

Lemma emits_bind_nil_l {A B} (m : M A) (k : A -> M B) t :
  emits m [] -> (forall a, emits (k a) t) -> emits (m ≫= k) t.
Proof. intros Hm Hk. exact (emits_bind m k [] t Hm Hk). Qed.

Lemma emits_gets {A} (f : World -> A) : emits (gets f) [].
Proof. intros w. cbn. rewrite app_nil_r. reflexivity. Qed.

Lemma emits_modify (f : World -> World) :
  (forall w, trace (f w) = trace w) -> emits (modify f) [].
Proof. intros H w. cbn. rewrite H, app_nil_r. reflexivity. Qed.

Lemma emits_called c : emits (called c) [c].
Proof. intros w. reflexivity. Qed.

Lemma emits_file_Write env f p : emits (file_Write env f p) [].
Proof.
  unfold file_Write. apply emits_bind_nil_l; [apply emits_gets|]. intros d.
  destruct d as [d|], (fault env (CallFileWrite f)); try apply emits_ret.
  destruct (negb (writable (d_flag d))); [apply emits_ret|].
  destruct (d_target d); try apply emits_ret.
  - apply emits_bind_nil_l; [apply emits_gets|]. intros [[|data]|]; try apply emits_ret.
    apply emits_bind_nil_l; [apply emits_modify; reflexivity|]. intros _. apply emits_ret.
  - apply emits_bind_nil_l; [apply emits_modify; reflexivity|]. intros _. apply emits_ret.
Qed.

Lemma emits_enc_do env c id op : emits (enc_do env c id op) [].
Proof.
  unfold enc_do. apply emits_bind_nil_l; [apply emits_gets|]. intros e.
  destruct e as [e|], (fault env (enc_call c op)); try apply emits_ret.
  apply emits_bind_nil_l; [apply emits_modify; reflexivity|]. intros _.
  destruct (codec_emit env c (enc_hist e) op); [apply emits_ret|].
  apply emits_file_Write.
Qed.

Lemma emits_io_Write env wr p : emits (io_Write env wr p) [].
Proof. destruct wr; [apply emits_enc_do | apply emits_file_Write]. Qed.

Lemma emits_bufio_Flush env b : emits (bufio_Flush env b) [].
Proof.
  unfold bufio_Flush. destruct (bw_err b); [apply emits_ret|].
  destruct (bw_buf b); [apply emits_ret|].
  apply emits_bind_nil_l; [apply emits_io_Write|]. intros [e|]; apply emits_ret.
Qed.

Lemma emits_file_Close env f : emits (file_Close env f) [CallFileClose f].
Proof.
  unfold file_Close.
  apply (emits_bind _ _ [CallFileClose f] []); [apply emits_called|]. intros _.
  destruct (fault env (CallFileClose f)); [apply emits_ret|].
  apply emits_bind_nil_l; [apply emits_gets|]. intros [d|]; [|apply emits_ret].
  apply emits_bind_nil_l; [apply emits_modify; reflexivity|]. intros _. apply emits_ret.
Qed.

(** ** Closing a reader *)

(** The value of a computation that ends in [mret]. *)
Lemma bind_value {A B} (m : M A) (k : A -> M B) (b : B) w :
  (forall a w', (k a w').1 = b) -> ((m ≫= k) w).1 = b.
Proof. intros H. unfold mbind, M_bind. destruct (m w) as [a w']. apply H. Qed.

Lemma emits_io_Close env r :
  is_ReadCloser r = true -> emits (io_Close env r) (source_close_calls r).
Proof.
  destruct r; cbn; try discriminate; intros _.
  - apply emits_file_Close.
  - apply (emits_bind _ _ [_] []); [apply emits_called | intros; apply emits_ret].
  - apply (emits_bind _ _ [_] []); [apply emits_called | intros; apply emits_ret].
Qed.

Lemma Reader_Close_nil env rd w : (Reader_Close env rd w).1 = None.
Proof.
  unfold Reader_Close. apply bind_value. intros _ w1.
  apply bind_value. intros _ w2. reflexivity.
Qed.

Lemma emits_Reader_Close env rd :
  emits (Reader_Close env rd)
        (decoder_close_calls (Reader_gz rd) ++ source_close_calls (Reader_rdr rd)).
Proof.
  unfold Reader_Close. apply emits_bind.
  - destruct (Reader_gz rd) as [c|]; cbn [decoder_close_calls]; [|apply emits_ret].
    apply (emits_bind _ _ [_] []); [|intros; apply emits_ret].
    unfold dec_Close. apply (emits_bind _ _ [_] []);
      [apply emits_called | intros; apply emits_ret].
  - intros _. rewrite <- (app_nil_r (source_close_calls _)). apply emits_bind.
    + destruct (is_ReadCloser (Reader_rdr rd)) eqn:E.
      * rewrite <- (app_nil_r (source_close_calls _)). apply emits_bind.
        -- apply emits_io_Close. exact E.
        -- intros; apply emits_ret.
      * destruct (Reader_rdr rd); try discriminate. apply emits_ret.
    + intros; apply emits_ret.
Qed.

(** What [Buf] stores in the reader it returns. *)
Lemma Buf_BOM_fields b r rdr rd err :
  Buf_BOM b r rdr = (Some rd, err) -> Reader_rdr rd = r /\ Reader_gz rd = rdr.
Proof.
  unfold Buf_BOM. destruct (bufio_ReadRune b) as [[[t size] e] b'].
  destruct (non_nil e); [discriminate|]. intros H. inversion H. auto.
Qed.

Lemma Buf_sniff_kept env r b rdr :
  Buf_sniff env r = inl (b, rdr) -> rdr = kept_decoder r.
Proof.
  unfold kept_decoder. case_bool_decide as Hg.
  - rewrite (Buf_sniff_gzip env r Hg).
    destruct (codec_NewReader env gzip (reader_stream r)); [|discriminate].
    intros H. inversion H. reflexivity.
  - unfold Buf_sniff, IsGzip. fold (fresh_reader r).
    destruct (CheckBytes_cases (fresh_reader r) gzip_magic) as [[H1 _]|[H1 _]];
      destruct (CheckBytes (fresh_reader r) gzip_magic) as [[i1 e1] b1];
      cbn [fst] in H1; inversion H1; subst; clear H1.
    { discriminate. }
    cbn [br_data fresh_reader bufio_NewReaderSize length gzip_magic].
    rewrite bool_decide_eq_false_2 by exact Hg.
    cbn [non_nil is_EOF andb negb].
    destruct (IsXz b1) as [[i2 e2] b2].
    destruct (non_nil e2 && negb (is_EOF e2)); [discriminate|].
    destruct i2.
    { destruct (codec_NewReader env xz (br_stream b2)); [|discriminate].
      intros H. inversion H. reflexivity. }
    destruct (IsZst b2) as [[i3 e3] b3].
    destruct (non_nil e3 && negb (is_EOF e3)); [discriminate|].
    destruct i3.
    { destruct (codec_NewReader env zstd (br_stream b3)); [|discriminate].
      intros H. inversion H. reflexivity. }
    intros H. inversion H. reflexivity.
Qed.

Lemma Buf_fields env r rd err :
  Buf env r = (Some rd, err) -> Reader_rdr rd = r /\ Reader_gz rd = kept_decoder r.
Proof.
  unfold Buf. destruct (Buf_sniff env r) as [[b rdr]|e] eqn:Hs; [|discriminate].
  intros H. apply Buf_BOM_fields in H as [H1 H2].
  rewrite (Buf_sniff_kept env r b rdr Hs) in H2. auto.
Qed.

(** C6, counterexample.  [Buf] opens the xz file and the zstd file with
    their decoders, and [Close] on the readers it returns closes the file
    only: the decoders are not closed. *)
Lemma Reader_Close_leaves_xz_zstd_decoders :
  ~ Close_closes_selected_decoder demo_env xz_file xz demo_world
  /\ ~ Close_closes_selected_decoder demo_env zstd_file zstd demo_world.
Proof.
  split; intros H.
  - assert (exists rd, Buf demo_env xz_file = (Some rd, None)) as [rd Hb]
      by (eexists; vm_compute; reflexivity).
    specialize (H rd Hb). destruct (Buf_fields _ _ _ _ Hb) as [Hr Hg].
    rewrite (emits_Reader_Close demo_env rd demo_world), Hr, Hg in H.
    vm_compute in H. discriminate.
  - assert (exists rd, Buf demo_env zstd_file = (Some rd, None)) as [rd Hb]
      by (eexists; vm_compute; reflexivity).
    specialize (H rd Hb). destruct (Buf_fields _ _ _ _ Hb) as [Hr Hg].
    rewrite (emits_Reader_Close demo_env rd demo_world), Hr, Hg in H.
    vm_compute in H. discriminate.
Qed.

(** C6, as the code has it.  For a reader returned by [Buf], [Close] returns
    nil and makes these calls, in this order and each once, whatever fails:
    the close of the gzip decoder when the stream carried the gzip
    signature (an xz or zstd decoder is not kept and not closed), then the
    close of the raw source when it has a [Close] method. *)
Theorem Reader_Close_teardown (env : Env) (r : io_Reader) (rd : Reader) (w : World) :
  Buf env r = (Some rd, None) ->
  (Reader_Close env rd w).1 = None
  /\ trace (Reader_Close env rd w).2
     = trace w
       ++ (if bool_decide (take 2 (avail (reader_stream r)) = gzip_magic)
           then [CallDecClose gzip] else [])
       ++ source_close_calls r.
Proof.
  intros Hb. split; [apply Reader_Close_nil|].
  destruct (Buf_fields env r rd None Hb) as [Hr Hg].
  rewrite (emits_Reader_Close env rd w), Hr, Hg. unfold kept_decoder.
  case_bool_decide; reflexivity.
Qed.

Lemma Reader_Close_teardown_witness :
  exists rd, Buf demo_env gzip_file = (Some rd, None)
    /\ (Reader_Close demo_env rd demo_world).1 = None
    /\ trace (Reader_Close demo_env rd demo_world).2
       = [CallDecClose gzip; CallFileClose 3].
Proof.
  eexists. split; [vm_compute; reflexivity|].
  exact (Reader_Close_teardown demo_env gzip_file _ demo_world eq_refl).
Defined.

(** ** Flushing and closing a writer *)

Lemma emits_enc_step env c id op (call : Call) :
  emits (called call ;; enc_do env c id op ;; mret tt) [call].
Proof.
  apply (emits_bind _ _ [call] []); [apply emits_called|]. intros _.
  apply emits_bind_nil_l; [apply emits_enc_do|]. intros; apply emits_ret.
Qed.

Lemma emits_Writer_Flush env W :
  emits (Writer_Flush env W) ([CallBufFlush] ++ encoder_flush_calls W).
Proof.
  unfold Writer_Flush, encoder_flush_calls.
  apply emits_bind; [apply emits_called|]. intros _.
  apply emits_bind_nil_l; [apply emits_bufio_Flush|]. intros [e b].
  apply emits_bind.
  { destruct (Writer_gz W); [apply emits_enc_step | apply emits_ret]. }
  intros _. rewrite <- (app_nil_r (match Writer_zw W with _ => _ end)).
  apply emits_bind.
  { destruct (Writer_zw W); [apply emits_enc_step | apply emits_ret]. }
  intros; apply emits_ret.
Qed.

Lemma Writer_Flush_fields env W w :
  let W' := (Writer_Flush env W w).1 in
  Writer_wtr W' = Writer_wtr W /\ Writer_gz W' = Writer_gz W
  /\ Writer_xw W' = Writer_xw W /\ Writer_zw W' = Writer_zw W.
Proof.
  unfold Writer_Flush, mbind, M_bind.
  repeat match goal with
         | |- context [match ?x with (_, _) => _ end] => destruct x
         end.
  cbn. auto.
Qed.

Lemma emits_match_enc (o : option nat) (k : nat -> M unit) (call : Call) :
  (forall id, emits (k id) [call]) ->
  emits (match o with Some id => k id | None => mret tt end)
        (match o with Some _ => [call] | None => [] end).
Proof. intros H. destruct o; [apply H | apply emits_ret]. Qed.

Lemma emits_Writer_Close env W :
  emits (Writer_Close env W)
        ([CallBufFlush] ++ encoder_flush_calls W ++ encoder_close_calls W
         ++ [CallFileClose (Writer_wtr W)]).
Proof.
  intros w. unfold Writer_Close. unfold mbind at 1, M_bind at 1.
  pose proof (Writer_Flush_fields env W w) as Hf. cbv zeta in Hf.
  pose proof (emits_Writer_Flush env W w) as Ht.
  destruct (Writer_Flush env W w) as [W' w']. cbn [fst snd] in Hf, Ht.
  destruct Hf as (Hwtr & Hgz & Hxw & Hzw).
  assert (Hk : emits
    (match Writer_gz W' with
     | Some gz => called (CallEncClose gzip) ;; enc_do env gzip gz OpClose ;; mret tt
     | None => mret tt
     end ;;
     match Writer_xw W' with
     | Some xw => called (CallEncClose xz) ;; enc_do env xz xw OpClose ;; mret tt
     | None => mret tt
     end ;;
     match Writer_zw W' with
     | Some zw => called (CallEncClose zstd) ;; enc_do env zstd zw OpClose ;; mret tt
     | None => mret tt
     end ;;
     file_Close env (Writer_wtr W') ;; mret (None : option error))
    (encoder_close_calls W' ++ [CallFileClose (Writer_wtr W')])).
  { unfold encoder_close_calls. rewrite <- !app_assoc.
    apply emits_bind.
    { apply (emits_match_enc _ (fun gz => _)). intros; apply emits_enc_step. }
    intros _. apply emits_bind.
    { apply (emits_match_enc _ (fun gz => _)). intros; apply emits_enc_step. }
    intros _. apply emits_bind.
    { apply (emits_match_enc _ (fun gz => _)). intros; apply emits_enc_step. }
    intros _. rewrite <- (app_nil_r [_]). apply emits_bind.
    { apply emits_file_Close. }
    intros; apply emits_ret. }
  rewrite (Hk w'), Ht. unfold encoder_close_calls.
  rewrite Hwtr, Hgz, Hxw, Hzw, <- !app_assoc. reflexivity.
Qed.

Lemma Writer_Close_nil env W w : (Writer_Close env W w).1 = None.
Proof.
  unfold Writer_Close. apply bind_value. intros W' w1.
  repeat (apply bind_value; intros ? ?). reflexivity.
Qed.

(** C4, counterexample.  The close of the sink fails, and [Close] returns
    nil. *)
Lemma Writer_Close_hides_sink_error :
  (file_Close failing_close_env
     (Writer_wtr (opened_Writer failing_close_env "out.gz"))
     (opened failing_close_env "out.gz").2).1
  = Some (ErrExternal "input/output error")
  /\ (Writer_Close failing_close_env (opened_Writer failing_close_env "out.gz")
        (opened failing_close_env "out.gz").2).1 = None
  /\ ~ Close_returns_last_error failing_close_env
         (opened_Writer failing_close_env "out.gz")
         (opened failing_close_env "out.gz").2.
Proof.
  split; [vm_compute; reflexivity|]. split; [apply Writer_Close_nil|].
  intros H. specialize (H (ErrExternal "input/output error") eq_refl).
  rewrite Writer_Close_nil in H. discriminate.
Qed.

(** C4, as the code has it.  [Writer.Close] makes these calls in this order,
    whatever fails: the flush of the buffer, the flush of the gzip or zstd
    encoder, the close of the encoder that is set, the close of the sink; it
    returns nil, so no step's error reaches the caller. *)
Theorem Writer_Close_steps (env : Env) (W : Writer) (w : World) :
  (Writer_Close env W w).1 = None
  /\ trace (Writer_Close env W w).2
     = trace w ++ [CallBufFlush] ++ encoder_flush_calls W
       ++ encoder_close_calls W ++ [CallFileClose (Writer_wtr W)].
Proof. split; [apply Writer_Close_nil | apply emits_Writer_Close]. Qed.

(** ** What an encoder has handed to its sink *)

Lemma emitted_snoc env c done ops op :
  emitted env c done (ops ++ [op])
  = emitted env c done ops ++ codec_emit env c (done ++ ops) op.
Proof.
  revert done. induction ops as [|o ops IH]; intros done; cbn [emitted app].
  - rewrite !app_nil_r. reflexivity.
  - rewrite IH, <- !app_assoc. reflexivity.
Qed.

Lemma enc_output_snoc env c hist op :
  enc_output env c (hist ++ [op]) = enc_output env c hist ++ codec_emit env c hist op.
Proof. unfold enc_output. rewrite emitted_snoc. reflexivity. Qed.

Lemma payload_app ops1 ops2 : payload (ops1 ++ ops2) = payload ops1 ++ payload ops2.
Proof.
  induction ops1 as [|[|p| |] ops1 IH]; cbn [payload app]; try assumption.
  - reflexivity.
  - rewrite IH, app_assoc. reflexivity.
Qed.

(** ** Writing to a file at its end *)
Lemma write_at_end (p data : list byte) : write_at (length data) p data = data ++ p.
Proof.
  unfold write_at. rewrite take_ge by lia. rewrite Nat.sub_diag. cbn [replicate app].
  rewrite drop_ge by lia. rewrite app_nil_r. reflexivity.
Qed.

Lemma file_Write_append env f name flag mode data p w :
  no_fault env ->
  fds w !! f = Some (mkDescriptor (OnPath name) flag (length data)) ->
  writable flag = true ->
  fs w !! name = Some (Regular mode data) ->
  file_Write env f p w = (None, appended f name flag mode data p w).
Proof.
  intros Hnf Hfd Hw Hfs. unfold file_Write, mbind, M_bind, gets, modify, mret, M_ret.
  rewrite Hfd, (Hnf (CallFileWrite f)). cbn [d_flag d_target d_pos].
  rewrite Hw. cbn [negb]. rewrite Hfs.
  destruct (has_flag flag O_APPEND); rewrite write_at_end; reflexivity.
Qed.

Lemma enc_do_step env c name fd id hist op w :
  no_fault env ->
  sink_holds env c name fd id hist w ->
  (enc_do env c id op w).1 = None
  /\ sink_holds env c name fd id (hist ++ [op]) (enc_do env c id op w).2
  /\ forall name', name' <> name ->
       fs (enc_do env c id op w).2 !! name' = fs w !! name'.
Proof.
  intros Hnf (He & (flag & Hw & Hfd) & (mode & Hfs)).
  unfold enc_do, mbind, M_bind, gets, modify, mret, M_ret.
  rewrite He, (Hnf (enc_call c op)). cbn [enc_sink enc_hist].
  destruct (codec_emit env c hist op) as [|x out] eqn:Hout.
  - cbn [fst snd]. split; [reflexivity|]. split; [|reflexivity].
    unfold sink_holds. rewrite enc_output_snoc, Hout, app_nil_r.
    cbn [encs fds fs set_encs]. rewrite lookup_insert_eq. eauto 10.
  - erewrite file_Write_append; [| exact Hnf | exact Hfd | exact Hw | exact Hfs].
    cbn [fst snd]. split; [reflexivity|]. split.
    + unfold sink_holds, appended. rewrite enc_output_snoc, Hout.
      cbn [encs fds fs set_encs set_fds set_fs].
      rewrite !lookup_insert_eq, length_app. eauto 10.
    + intros name' Hne. unfold appended. cbn [encs fds fs set_encs set_fds set_fs].
      rewrite lookup_insert_ne by congruence. reflexivity.
Qed.

Ltac splits := repeat match goal with |- _ /\ _ => split end.

(** ** The buffered writer over an encoder *)
Lemma bufio_Flush_step env c name fd id hist b w :
  no_fault env ->
  sink_holds env c name fd id hist w ->
  bw_wr b = ToEncoder c id -> bw_err b = None ->
  exists ws,
    (bufio_Flush env b w).1 = (None, mkBufWriter None [] (bw_size b) (bw_wr b))
    /\ sink_holds env c name fd id (hist ++ ws) (bufio_Flush env b w).2
    /\ Forall in_session ws
    /\ payload ws = bw_buf b.
Proof.
  intros Hnf Hs Hwr Herr. unfold bufio_Flush. rewrite Herr.
  destruct (bw_buf b) as [|x buf] eqn:Hbuf.
  - exists []. cbn [mret M_ret fst snd]. rewrite app_nil_r. splits; auto; try congruence.
    destruct b; cbn in *; subst; reflexivity.
  - unfold mbind, M_bind. rewrite Hwr. cbn [io_Write].
    destruct (enc_do_step env c name fd id hist (OpWrite (x :: buf)) w Hnf Hs)
      as (Hr & Hs' & _).
    destruct (enc_do env c id (OpWrite (x :: buf)) w) as [err w'].
    cbn [fst snd] in Hr, Hs'. subst err. cbn [mret M_ret fst snd].
    exists [OpWrite (x :: buf)]. splits; auto; try congruence.
    + repeat constructor.
    + cbn [payload]. apply app_nil_r.
Qed.

Lemma bufio_Write_loop_step env c name fd id fuel :
  no_fault env ->
  forall hist b p w,
    sink_holds env c name fd id hist w ->
    bw_wr b = ToEncoder c id -> bw_err b = None ->
    exists ws b' p',
      (bufio_Write_loop fuel env b p w).1 = (b', p')
      /\ bw_wr b' = bw_wr b /\ bw_err b' = None /\ bw_size b' = bw_size b
      /\ sink_holds env c name fd id (hist ++ ws) (bufio_Write_loop fuel env b p w).2
      /\ Forall in_session ws
      /\ payload ws ++ bw_buf b' ++ p' = bw_buf b ++ p.
Proof.
  intros Hnf. induction fuel as [|fuel IH]; intros hist b p w Hs Hwr Herr.
  - exists [], b, p. cbn [bufio_Write_loop]. rewrite app_nil_r.
    destruct (_ && _); cbn; auto 10.
  - cbn [bufio_Write_loop].
    destruct ((bufio_Available b <? Z.of_nat (length p))%Z && negb (non_nil (bw_err b))).
    2:{ exists [], b, p. rewrite app_nil_r. cbn. auto 10. }
    destruct (bw_buf b) as [|x buf] eqn:Hbuf.
    + unfold mbind, M_bind. rewrite Hwr. cbn [io_Write].
      destruct (enc_do_step env c name fd id hist (OpWrite p) w Hnf Hs) as (Hr & Hs' & _).
      destruct (enc_do env c id (OpWrite p) w) as [err w'].
      cbn [fst snd] in Hr, Hs'. subst err.
      destruct (IH (hist ++ [OpWrite p]) b [] w' Hs' Hwr Herr)
        as (ws & b' & p' & Hrun & Hwr' & Herr' & Hsz' & Hs'' & Hws & Hpay).
      exists (OpWrite p :: ws), b', p'. rewrite Hrun.
      rewrite <- app_assoc in Hs''. splits; auto; try congruence.
      { constructor; [exact I | exact Hws]. }
      rewrite Hbuf in Hpay. cbn [payload app] in *. rewrite <- app_assoc, Hpay.
      apply app_nil_r.
    + unfold mbind, M_bind.
      set (n := Z.to_nat (bufio_Available b)).
      set (b1 := mkBufWriter (bw_err b) (x :: buf ++ take n p) (bw_size b) (bw_wr b)).
      destruct (bufio_Flush_step env c name fd id hist b1 w Hnf Hs Hwr Herr)
        as (ws1 & Hr & Hs' & Hws1 & Hpay1).
      change ((x :: buf) ++ take n p) with (x :: buf ++ take n p). fold b1.
      destruct (bufio_Flush env b1 w) as [[err b2] w'].
      cbn [fst snd] in Hr, Hs'. inversion Hr; subst err b2; clear Hr.
      cbn [bw_size bw_wr b1] in *.
      destruct (IH (hist ++ ws1) (mkBufWriter None [] (bw_size b) (bw_wr b))
                   (drop n p) w' Hs' Hwr eq_refl)
        as (ws & b' & p' & Hrun & Hwr' & Herr' & Hsz' & Hs'' & Hws & Hpay).
      exists (ws1 ++ ws), b', p'. rewrite Hrun.
      rewrite <- app_assoc in Hs''. splits; auto; try congruence.
      { apply Forall_app; auto. }
      rewrite payload_app, <- app_assoc, Hpay, Hpay1. unfold b1. cbn [bw_buf app].
      rewrite <- app_assoc, take_drop. reflexivity.
Qed.

Lemma bufio_Write_step env c name fd id hist b p w :
  no_fault env ->
  sink_holds env c name fd id hist w ->
  bw_wr b = ToEncoder c id -> bw_err b = None ->
  exists ws b',
    (bufio_Write env b p w).1 = (None, b')
    /\ bw_wr b' = bw_wr b /\ bw_err b' = None /\ bw_size b' = bw_size b
    /\ sink_holds env c name fd id (hist ++ ws) (bufio_Write env b p w).2
    /\ Forall in_session ws
    /\ payload ws ++ bw_buf b' = bw_buf b ++ p.
Proof.
  intros Hnf Hs Hwr Herr. unfold bufio_Write, mbind, M_bind.
  destruct (bufio_Write_loop_step env c name fd id 2 Hnf hist b p w Hs Hwr Herr)
    as (ws & b' & p' & Hrun & Hwr' & Herr' & Hsz' & Hs' & Hws & Hpay).
  destruct (bufio_Write_loop 2 env b p w) as [[b1 p1] w'].
  cbn [fst snd] in Hrun, Hs'. inversion Hrun; subst b1 p1; clear Hrun.
  rewrite Herr'. cbn [mret M_ret fst snd].
  exists ws, (mkBufWriter None (bw_buf b' ++ p') (bw_size b') (bw_wr b')).
  cbn [bw_wr bw_err bw_size bw_buf]. splits; auto; try congruence.
Qed.

(** ** The loop of [bufio.Writer.Write] ends within two rounds *)

Lemma bufio_Write_loop_stop fuel env b p w :
  Write_goes_on b p = false -> bufio_Write_loop fuel env b p w = (b, p, w).
Proof.
  unfold Write_goes_on. intros H. destruct fuel; cbn [bufio_Write_loop]; rewrite H; reflexivity.
Qed.

Lemma bufio_Write_loop_S fuel env b p :
  bufio_Write_loop (S fuel) env b p
  = if Write_goes_on b p then
      match bw_buf b with
      | [] =>
          err ← io_Write env (bw_wr b) p;
          match err with
          | Some e =>
              bufio_Write_loop fuel env (mkBufWriter (Some e) [] (bw_size b) (bw_wr b)) p
          | None => bufio_Write_loop fuel env b []
          end
      | _ =>
          let n := Z.to_nat (bufio_Available b) in
          '(_, b) ← bufio_Flush env
                      (mkBufWriter (bw_err b) (bw_buf b ++ take n p) (bw_size b) (bw_wr b));
          bufio_Write_loop fuel env b (drop n p)
      end
    else mret (b, p).
Proof. reflexivity. Qed.

Lemma bufio_Write_loop_empty fuel env b p w b' p' w' :
  bw_buf b = [] -> (0 <= bw_size b)%Z ->
  bufio_Write_loop (S fuel) env b p w = (b', p', w') ->
  Write_goes_on b' p' = false.
Proof.
  intros Hbuf Hsize. rewrite bufio_Write_loop_S.
  destruct (Write_goes_on b p) eqn:Hon.
  2:{ intros H. inversion H; subst. exact Hon. }
  rewrite Hbuf. unfold mbind, M_bind.
  destruct (io_Write env (bw_wr b) p w) as [[e|] w1].
  - rewrite bufio_Write_loop_stop; [|unfold Write_goes_on; cbn; apply andb_false_r].
    intros H. inversion H; subst. unfold Write_goes_on. cbn. apply andb_false_r.
  - assert (Hstop : Write_goes_on b [] = false).
    { unfold Write_goes_on, bufio_Available. rewrite Hbuf. cbn [length].
      destruct (Z.ltb_spec (bw_size b - Z.of_nat 0) (Z.of_nat 0)); [lia | reflexivity]. }
    rewrite bufio_Write_loop_stop by exact Hstop.
    intros H. inversion H; subst. exact Hstop.
Qed.

(** With two rounds of fuel the loop always leaves on its own condition:
    the fuel is never what stops it. *)
Lemma bufio_Write_loop_settles env b p w b' p' w' :
  (0 <= bw_size b)%Z ->
  bufio_Write_loop 2 env b p w = (b', p', w') ->
  Write_goes_on b' p' = false.
Proof.
  intros Hsize.
  destruct (bw_buf b) as [|x buf] eqn:Hbuf.
  { apply (bufio_Write_loop_empty 1 env b p w b' p' w' Hbuf Hsize). }
  rewrite bufio_Write_loop_S.
  destruct (Write_goes_on b p) eqn:Hon.
  2:{ intros H. inversion H; subst. exact Hon. }
  rewrite Hbuf. cbv zeta. unfold mbind at 1, M_bind at 1.
  assert (Herr : bw_err b = None).
  { unfold Write_goes_on in Hon. apply andb_prop in Hon as [_ Hon].
    destruct (bw_err b); [discriminate | reflexivity]. }
  unfold bufio_Flush. cbn [bw_err bw_buf bw_size bw_wr]. rewrite Herr.
  change ((x :: buf) ++ take (Z.to_nat (bufio_Available b)) p)
    with (x :: buf ++ take (Z.to_nat (bufio_Available b)) p).
  cbv iota. unfold mbind at 1, M_bind at 1.
  destruct (io_Write env (bw_wr b) _ w) as [[e|] w1]; cbn [mret M_ret].
  - rewrite bufio_Write_loop_stop; [|unfold Write_goes_on; cbn; apply andb_false_r].
    intros H. inversion H; subst. unfold Write_goes_on. cbn. apply andb_false_r.
  - apply (bufio_Write_loop_empty 0 env (mkBufWriter None [] (bw_size b) (bw_wr b))
             _ w1 b' p' w' eq_refl Hsize).
Qed.

(** ** The composite writer over an encoder *)

Lemma Writer_Write_step env c name W w ops B p :
  no_fault env ->
  writing env c name W w ops B ->
  exists ops',
    (Writer_Write env W p w).1.1 = None
    /\ writing env c name (Writer_Write env W p w).1.2 (Writer_Write env W p w).2
               ops' (B ++ p).
Proof.
  intros Hnf (id & Hf & Hwr & Herr & Hs & Hops & HB).
  unfold Writer_Write, mbind, M_bind.
  destruct (bufio_Write_step env c name (Writer_wtr W) id (OpNew :: ops)
              (Writer_Writer W) p w Hnf Hs Hwr Herr)
    as (ws & b' & Hrun & Hwr' & Herr' & _ & Hs' & Hws & Hpay).
  destruct (bufio_Write env (Writer_Writer W) p w) as [[err b1] w'].
  cbn [fst snd] in Hrun, Hs'. inversion Hrun; subst err b1; clear Hrun.
  cbn [mret M_ret fst snd]. exists (ops ++ ws). split; [reflexivity|].
  exists id. unfold with_Writer. cbn [Writer_Writer Writer_wtr].
  split; [destruct c; exact Hf|]. split; [congruence|]. split; [exact Herr'|].
  split; [exact Hs'|]. split.
  - apply Forall_app; auto.
  - rewrite payload_app, <- app_assoc, Hpay, app_assoc, HB. reflexivity.
Qed.

Lemma called_bind {B} (c : Call) (k : M B) w :
  (called c ;; k) w = k (set_trace (trace w ++ [c]) w).
Proof. reflexivity. Qed.

Lemma enc_block_step env c name fd id hist op call w :
  no_fault env ->
  sink_holds env c name fd id hist w ->
  sink_holds env c name fd id (hist ++ [op])
             ((called call ;; enc_do env c id op ;; mret tt) w).2.
Proof.
  intros Hnf Hs. unfold mbind, M_bind, called, modify. cbn [fst snd].
  destruct (enc_do_step env c name fd id hist op
              (set_trace (trace w ++ [call]) w) Hnf Hs) as (_ & Hs' & _).
  destruct (enc_do env c id op (set_trace (trace w ++ [call]) w)) as [e w'].
  exact Hs'.
Qed.

Lemma Writer_Flush_step env c name W w ops B :
  no_fault env ->
  writing env c name W w ops B ->
  exists ws,
    writing env c name (Writer_Flush env W w).1 (Writer_Flush env W w).2
            (ops ++ ws ++ flush_ops c) B
    /\ payload ws = bw_buf (Writer_Writer W)
    /\ bw_buf (Writer_Writer (Writer_Flush env W w).1) = [].
Proof.
  intros Hnf (id & Hf & Hwr & Herr & Hs & Hops & HB).
  destruct (bufio_Flush_step env c name (Writer_wtr W) id (OpNew :: ops)
              (Writer_Writer W) (set_trace (trace w ++ [CallBufFlush]) w) Hnf Hs Hwr Herr)
    as (ws & Hrun & Hs' & Hws & Hpay).
  exists ws.
  set (b' := mkBufWriter None [] (bw_size (Writer_Writer W)) (bw_wr (Writer_Writer W))).
  assert (Hflush : exists w2,
    Writer_Flush env W w = (with_Writer b' W, w2)
    /\ sink_holds env c name (Writer_wtr W) id (OpNew :: ops ++ ws ++ flush_ops c) w2).
  { unfold Writer_Flush. rewrite called_bind. unfold mbind at 1, M_bind at 1.
    destruct (bufio_Flush env (Writer_Writer W) (set_trace (trace w ++ [CallBufFlush]) w))
      as [[err b1] w1].
    cbn [fst snd] in Hrun, Hs'. inversion Hrun; subst err b1; clear Hrun.
    destruct c; cbn [encoder_field] in Hf; destruct Hf as (Hgz & Hxw & Hzw);
      rewrite Hgz, Hzw; unfold mbind at 1, M_bind at 1.
    - pose proof (enc_block_step env gzip name _ id _ OpFlush (CallEncFlush gzip) w1 Hnf Hs')
        as H1.
      destruct ((called (CallEncFlush gzip) ;; enc_do env gzip id OpFlush ;; mret tt) w1)
        as [u w2].
      exists w2. split; [reflexivity|]. rewrite <- app_assoc in H1. exact H1.
    - exists w1. split; [reflexivity|]. cbn [flush_ops]. rewrite app_nil_r. exact Hs'.
    - cbn [mret M_ret]. unfold mbind at 1, M_bind at 1.
      pose proof (enc_block_step env zstd name _ id _ OpFlush (CallEncFlush zstd) w1 Hnf Hs')
        as H1.
      destruct ((called (CallEncFlush zstd) ;; enc_do env zstd id OpFlush ;; mret tt) w1)
        as [u w2].
      exists w2. split; [reflexivity|]. rewrite <- app_assoc in H1. exact H1. }
  destruct Hflush as (w2 & -> & Hs2). cbn [fst snd].
  split; [|split; [exact Hpay | reflexivity]].
  exists id. unfold with_Writer. cbn [Writer_Writer Writer_wtr bw_wr bw_err bw_buf b'].
  split; [destruct c; exact Hf|]. split; [exact Hwr|]. split; [reflexivity|].
  split; [exact Hs2|]. split.
  - repeat (apply Forall_app; split); auto. destruct c; repeat constructor.
  - rewrite !payload_app, Hpay, app_nil_r.
    replace (payload (flush_ops c)) with (@nil byte) by (destruct c; reflexivity).
    rewrite app_nil_r. exact HB.
Qed.

(** ** The suffix that selects the encoder *)

Lemma HasSuffix_get s suffix i :
  strings_HasSuffix s suffix = true ->
  (i < String.length suffix)%nat ->
  String.get (String.length s - String.length suffix + i) s = String.get i suffix.
Proof.
  unfold strings_HasSuffix. intros H Hi.
  apply andb_prop in H as [_ H]. apply String.eqb_eq in H.
  rewrite <- H at 2. rewrite String.substring_correct1 by exact Hi.
  f_equal. lia.
Qed.

Lemma HasSuffix_length s suffix :
  strings_HasSuffix s suffix = true -> (String.length suffix <= String.length s)%nat.
Proof.
  unfold strings_HasSuffix. intros H. apply andb_prop in H as [H _].
  apply Nat.leb_le in H. exact H.
Qed.

(** The three suffixes exclude one another, so the order of the tests in
    [WopenFile] does not matter. *)
Lemma suffix_exclusive s c c' :
  strings_HasSuffix s (suffix_of c) = true ->
  strings_HasSuffix s (suffix_of c') = true -> c = c'.
Proof.
  intros H H'.
  pose proof (HasSuffix_length _ _ H) as L. pose proof (HasSuffix_length _ _ H') as L'.
  destruct c, c'; try reflexivity; exfalso; cbn [suffix_of] in *;
    change (String.length ".gz") with 3%nat in *;
    change (String.length ".xz") with 3%nat in *;
    change (String.length ".zst") with 4%nat in *.
  - pose proof (HasSuffix_get _ _ 1 H ltac:(cbn; lia)) as G.
    pose proof (HasSuffix_get _ _ 1 H' ltac:(cbn; lia)) as G'.
    cbn [String.length] in G, G'. rewrite G in G'. discriminate.
  - pose proof (HasSuffix_get _ _ 2 H ltac:(cbn; lia)) as G.
    pose proof (HasSuffix_get _ _ 3 H' ltac:(cbn; lia)) as G'.
    cbn [String.length] in G, G'.
    replace (String.length s - 4 + 3)%nat with (String.length s - 3 + 2)%nat in G' by lia.
    rewrite G in G'. discriminate.
  - pose proof (HasSuffix_get _ _ 1 H ltac:(cbn; lia)) as G.
    pose proof (HasSuffix_get _ _ 1 H' ltac:(cbn; lia)) as G'.
    cbn [String.length] in G, G'. rewrite G in G'. discriminate.
  - pose proof (HasSuffix_get _ _ 2 H ltac:(cbn; lia)) as G.
    pose proof (HasSuffix_get _ _ 3 H' ltac:(cbn; lia)) as G'.
    cbn [String.length] in G, G'.
    replace (String.length s - 4 + 3)%nat with (String.length s - 3 + 2)%nat in G' by lia.
    rewrite G in G'. discriminate.
  - pose proof (HasSuffix_get _ _ 3 H ltac:(cbn; lia)) as G.
    pose proof (HasSuffix_get _ _ 2 H' ltac:(cbn; lia)) as G'.
    cbn [String.length] in G, G'.
    replace (String.length s - 4 + 3)%nat with (String.length s - 3 + 2)%nat in G by lia.
    rewrite G in G'. discriminate.
  - pose proof (HasSuffix_get _ _ 3 H ltac:(cbn; lia)) as G.
    pose proof (HasSuffix_get _ _ 2 H' ltac:(cbn; lia)) as G'.
    cbn [String.length] in G, G'.
    replace (String.length s - 4 + 3)%nat with (String.length s - 3 + 2)%nat in G by lia.
    rewrite G in G'. discriminate.
Qed.

Lemma suffix_not c c' s :
  strings_HasSuffix s (suffix_of c) = true -> c <> c' ->
  strings_HasSuffix s (suffix_of c') = false.
Proof.
  intros H Hne. destruct (strings_HasSuffix s (suffix_of c')) eqn:E; [|reflexivity].
  destruct (Hne (suffix_exclusive s c c' H E)).
Qed.

Lemma ret_bind {A B} (a : A) (k : A -> M B) w : (mret a ≫= k) w = k a w.
Proof. reflexivity. Qed.

Lemma fs_file_Close env f w : fs (file_Close env f w).2 = fs w.
Proof.
  unfold file_Close. rewrite called_bind.
  destruct (fault env (CallFileClose f)); [reflexivity|].
  unfold mbind, M_bind, gets. cbn [fds set_trace].
  destruct (fds w !! f); reflexivity.
Qed.

Lemma Writer_Close_step env c name W w ops B :
  no_fault env ->
  writing env c name W w ops B ->
  exists ops',
    Forall in_session ops' /\ payload ops' = B
    /\ exists mode, fs (Writer_Close env W w).2 !! name
       = Some (Regular mode (enc_output env c (OpNew :: ops' ++ [OpClose]))).
Proof.
  intros Hnf Hw.
  destruct (Writer_Flush_step env c name W w ops B Hnf Hw) as (ws & Hw' & _ & Hempty).
  unfold Writer_Close. unfold mbind at 1, M_bind at 1.
  destruct (Writer_Flush env W w) as [W' w1]. cbn [fst snd] in Hw', Hempty.
  destruct Hw' as (id & Hf & Hwr & Herr & Hs & Hops & HB).
  rewrite Hempty, app_nil_r in HB.
  exists (ops ++ ws ++ flush_ops c). split; [exact Hops|]. split; [exact HB|].
  change (OpNew :: (ops ++ ws ++ flush_ops c) ++ [OpClose])
    with ((OpNew :: ops ++ ws ++ flush_ops c) ++ [OpClose]).
  assert (Htail : forall fd id' w2,
    sink_holds env c name fd id' ((OpNew :: ops ++ ws ++ flush_ops c) ++ [OpClose]) w2 ->
    exists mode,
      fs ((file_Close env (Writer_wtr W') ;; mret (None : option error)) w2).2 !! name
      = Some (Regular mode (enc_output env c
                              ((OpNew :: ops ++ ws ++ flush_ops c) ++ [OpClose])))).
  { intros fd id' w2 (_ & _ & (mode & H2)). exists mode. unfold mbind, M_bind, mret, M_ret.
    pose proof (fs_file_Close env (Writer_wtr W') w2) as Hc.
    destruct (file_Close env (Writer_wtr W') w2) as [e w3]. cbn [fst snd] in *.
    rewrite Hc. exact H2. }
  destruct c; cbn [encoder_field] in Hf; destruct Hf as (Hgz & Hxw & Hzw);
    rewrite Hgz, Hxw, Hzw; rewrite ?ret_bind; unfold mbind at 1, M_bind at 1.
  - pose proof (enc_block_step env gzip name _ id _ OpClose (CallEncClose gzip) w1 Hnf Hs) as H1.
    destruct ((called (CallEncClose gzip) ;; enc_do env gzip id OpClose ;; mret tt) w1)
      as [u w2]. cbn [fst snd] in H1. rewrite !ret_bind. eapply Htail, H1.
  - pose proof (enc_block_step env xz name _ id _ OpClose (CallEncClose xz) w1 Hnf Hs) as H1.
    destruct ((called (CallEncClose xz) ;; enc_do env xz id OpClose ;; mret tt) w1)
      as [u w2]. cbn [fst snd] in H1. rewrite !ret_bind. eapply Htail, H1.
  - pose proof (enc_block_step env zstd name _ id _ OpClose (CallEncClose zstd) w1 Hnf Hs) as H1.
    destruct ((called (CallEncClose zstd) ;; enc_do env zstd id OpClose ;; mret tt) w1)
      as [u w2]. cbn [fst snd] in H1. rewrite ?ret_bind. eapply Htail, H1.
Qed.

(** ** Writes keep the modes of the table *)

Lemma keeps_ret {A} (a : A) : keeps_modes (mret a : M A).
Proof. intros w name. reflexivity. Qed.

Lemma keeps_bind {A B} (m : M A) (k : A -> M B) :
  keeps_modes m -> (forall a, keeps_modes (k a)) -> keeps_modes (m ≫= k).
Proof.
  intros Hm Hk w name. unfold mbind, M_bind.
  specialize (Hm w name). destruct (m w) as [a w1]. cbn [snd] in Hm.
  rewrite Hk. exact Hm.
Qed.

Lemma keeps_gets {A} (f : World -> A) : keeps_modes (gets f).
Proof. intros w name. reflexivity. Qed.

Lemma keeps_called c : keeps_modes (called c).
Proof. intros w name. reflexivity. Qed.

Lemma keeps_file_Write env f p : keeps_modes (file_Write env f p).
Proof.
  intros w name'. unfold file_Write, mbind, M_bind, gets, modify, mret, M_ret.
  destruct (fds w !! f) as [d|]; [|reflexivity].
  destruct (fault env (CallFileWrite f)); [reflexivity|].
  destruct (negb (writable (d_flag d))); [reflexivity|].
  destruct (d_target d) as [name| |]; try reflexivity.
  destruct (fs w !! name) as [[mode|mode data]|] eqn:Hfs; try reflexivity.
  unfold mode_of. cbn [snd fs set_fs set_fds].
  destruct (decide (name = name')) as [->|Hne].
  - rewrite lookup_insert_eq, Hfs. reflexivity.
  - rewrite lookup_insert_ne by exact Hne. reflexivity.
Qed.

Lemma keeps_file_Close env f : keeps_modes (file_Close env f).
Proof. intros w name. unfold mode_of. rewrite fs_file_Close. reflexivity. Qed.

Lemma keeps_enc_do env c id op : keeps_modes (enc_do env c id op).
Proof.
  unfold enc_do. apply keeps_bind; [apply keeps_gets|]. intros [e|]; [|apply keeps_ret].
  destruct (fault env (enc_call c op)); [apply keeps_ret|].
  apply keeps_bind; [intros w name; reflexivity|]. intros _.
  destruct (codec_emit env c (enc_hist e) op); [apply keeps_ret | apply keeps_file_Write].
Qed.

Lemma keeps_io_Write env wr p : keeps_modes (io_Write env wr p).
Proof. destruct wr; [apply keeps_enc_do | apply keeps_file_Write]. Qed.

Lemma keeps_bufio_Flush env b : keeps_modes (bufio_Flush env b).
Proof.
  unfold bufio_Flush. destruct (bw_err b); [apply keeps_ret|].
  destruct (bw_buf b); [apply keeps_ret|].
  apply keeps_bind; [apply keeps_io_Write|]. intros [e|]; apply keeps_ret.
Qed.

Lemma keeps_bufio_Write_loop fuel env : forall b p,
  keeps_modes (bufio_Write_loop fuel env b p).
Proof.
  induction fuel as [|fuel IH]; intros b p; cbn [bufio_Write_loop];
    destruct ((bufio_Available b <? Z.of_nat (length p))%Z && negb (non_nil (bw_err b)));
    try apply keeps_ret.
  destruct (bw_buf b).
  - apply keeps_bind; [apply keeps_io_Write|]. intros [e|]; apply IH.
  - apply keeps_bind; [apply keeps_bufio_Flush|]. intros [e b']. apply IH.
Qed.

Lemma keeps_Writer_Write env W p : keeps_modes (Writer_Write env W p).
Proof.
  unfold Writer_Write, bufio_Write.
  apply keeps_bind; [|intros [e b]; apply keeps_ret].
  apply keeps_bind; [apply keeps_bufio_Write_loop|].
  intros [b p']. destruct (bw_err b); apply keeps_ret.
Qed.

Lemma keeps_enc_block env c (o : option nat) op call :
  keeps_modes (match o with
               | Some id => called call ;; enc_do env c id op ;; mret tt
               | None => mret tt
               end).
Proof.
  destruct o; [|apply keeps_ret].
  apply keeps_bind; [apply keeps_called|]. intros _.
  apply keeps_bind; [apply keeps_enc_do|]. intros _. apply keeps_ret.
Qed.

Lemma keeps_Writer_Flush env W : keeps_modes (Writer_Flush env W).
Proof.
  unfold Writer_Flush.
  apply keeps_bind; [apply keeps_called|]. intros _.
  apply keeps_bind; [apply keeps_bufio_Flush|]. intros [e b].
  apply keeps_bind; [apply keeps_enc_block|]. intros _.
  apply keeps_bind; [apply keeps_enc_block|]. intros _. apply keeps_ret.
Qed.

Lemma keeps_Writer_Close env W : keeps_modes (Writer_Close env W).
Proof.
  unfold Writer_Close.
  apply keeps_bind; [apply keeps_Writer_Flush|]. intros W'.
  apply keeps_bind; [apply keeps_enc_block|]. intros _.
  apply keeps_bind; [apply keeps_enc_block|]. intros _.
  apply keeps_bind; [apply keeps_enc_block|]. intros _.
  apply keeps_bind; [apply keeps_file_Close|]. intros _. apply keeps_ret.
Qed.

Lemma keeps_NewWriter env c wtr : keeps_modes (NewWriter env c wtr).
Proof.
  unfold NewWriter. apply keeps_bind; [apply keeps_gets|]. intros id.
  apply keeps_bind; [intros w name; reflexivity|]. intros _.
  apply keeps_bind; [apply keeps_enc_do|]. intros err. apply keeps_ret.
Qed.

(** ** Opening a file for writing *)
Lemma os_Stat_eq name w :
  os_Stat name w
  = (match fs w !! name with
     | Some (Directory _) => ok true
     | Some (Regular _ _) => ok false
     | None => fail os_ErrNotExist
     end, w).
Proof.
  unfold os_Stat, mbind, M_bind, gets. destruct (fs w !! name) as [[m|m d]|]; reflexivity.
Qed.

Lemma os_OpenFile_empty env f flag perm w dmode :
  fault env (CallOpenFile f) = None ->
  fs w !! filepath_Dir env f = Some (Directory dmode) ->
  (forall mode, fs w !! f <> Some (Directory mode)) ->
  writable flag = true -> has_flag flag O_CREATE = true ->
  has_flag flag O_TRUNC = true -> has_flag flag O_EXCL = false ->
  match fs w !! f with
  | Some (Regular mode _) => permitted env flag mode = true
  | _ => may env dmode S_IWUSR = true /\ may env dmode S_IXUSR = true
  end ->
  exists fd w1,
    os_OpenFile env f flag perm w = (ok fd, w1)
    /\ fs w1 !! f = Some (Regular (mode_after_open env f perm w) [])
    /\ fds w1 !! fd = Some (mkDescriptor (OnPath f) flag 0).
Proof.
  intros Hnf Hdir Hf Hw Hc Ht He Hperm.
  unfold os_OpenFile, mode_after_open. rewrite Hnf.
  unfold mbind, M_bind, gets, modify, new_fd, mret, M_ret.
  destruct (fs w !! f) as [[m|m d]|] eqn:Hfs.
  - destruct (Hf m eq_refl).
  - rewrite Hc, He, Hperm, Ht. cbn [andb negb fst snd fs fds set_fs set_fds].
    eexists _, _. split; [reflexivity|].
    cbn [fs fds set_fs set_fds]. rewrite !lookup_insert_eq. auto.
  - destruct Hperm as [Hpw Hpx].
    rewrite Hc, Hdir, Hpw, Hpx. cbn [andb fst snd fs fds set_fs set_fds].
    eexists _, _. split; [reflexivity|].
    cbn [fs fds set_fs set_fds]. rewrite !lookup_insert_eq. auto.
Qed.

Lemma WopenFile_sink_empty env f flag perm w :
  no_fault env ->
  writable_target env f flag w ->
  exists fd w1,
    WopenFile_sink env f flag perm w = (ok fd, w1)
    /\ fs w1 !! f = Some (Regular (mode_after_open env f perm w) [])
    /\ fds w1 !! fd = Some (mkDescriptor (OnPath f) flag 0).
Proof.
  intros Hnf (Hdash & Hne & Hdir & Hf & Hw & Hc & Ht & He & Hperm).
  unfold WopenFile_sink. rewrite Hdash. unfold mbind at 1, M_bind at 1.
  rewrite os_Stat_eq. unfold modes_permit, parent_mode in Hperm.
  destruct (fs w !! filepath_Dir env f) as [[dm|m d]|] eqn:Hd.
  - rewrite ret_bind. apply (os_OpenFile_empty env f flag perm w dm); auto.
    destruct (fs w !! f) as [[m|m d]|]; [destruct Hperm | exact Hperm | exact Hperm].
  - destruct (Hdir m d eq_refl).
  - unfold mbind at 1, M_bind at 1. unfold mbind at 1, M_bind at 1.
    unfold os_MkdirAll. rewrite (Hnf (CallMkdirAll _)).
    unfold mbind at 1, M_bind at 1, gets. rewrite Hd.
    unfold mbind at 1, M_bind at 1, modify. cbn [mret M_ret].
    set (w' := set_fs _ w).
    assert (Hsame : fs w' !! f = fs w !! f).
    { unfold w'. cbn [fs set_fs]. apply lookup_insert_ne. exact Hne. }
    replace (mode_after_open env f perm w) with (mode_after_open env f perm w')
      by (unfold mode_after_open; rewrite Hsame; reflexivity).
    apply (os_OpenFile_empty env f flag perm w' (created_mode env 0x1ed)); auto.
    + unfold w'. cbn [fs set_fs]. apply lookup_insert_eq.
    + intros m. rewrite Hsame. apply Hf.
    + rewrite Hsame.
      destruct (fs w !! f) as [[m|m d]|]; [destruct Hperm | exact Hperm | exact Hperm].
Qed.

Lemma NewWriter_step env c name fd w :
  no_fault env ->
  (exists mode, fs w !! name = Some (Regular mode [])) ->
  (exists flag, writable flag = true
     /\ fds w !! fd = Some (mkDescriptor (OnPath name) flag 0)) ->
  exists id w1,
    NewWriter env c fd w = ((id, None), w1)
    /\ sink_holds env c name fd id [OpNew] w1.
Proof.
  intros Hnf Hfs Hfd. unfold NewWriter. unfold mbind at 1, M_bind at 1, gets.
  unfold mbind at 1, M_bind at 1, modify. unfold mbind at 1, M_bind at 1.
  set (id := fresh (dom (encs w))).
  set (w0 := set_encs (<[id := mkEncoder fd []]> (encs w)) w).
  assert (Hs : sink_holds env c name fd id [] w0).
  { unfold sink_holds, w0. cbn [encs fds fs set_encs enc_output emitted length].
    rewrite lookup_insert_eq. auto. }
  clear Hfs Hfd.
  destruct (enc_do_step env c name fd id [] OpNew w0 Hnf Hs) as (Hr & Hs' & _).
  destruct (enc_do env c id OpNew w0) as [err w1]. cbn [fst snd] in Hr, Hs'. subst err.
  exists id, w1. split; [reflexivity | exact Hs'].
Qed.

Lemma WopenFile_step env c f flag perm w :
  no_fault env ->
  writable_target env f flag w ->
  strings_HasSuffix (strings_ToLower f) (suffix_of c) = true ->
  exists W w1,
    WopenFile env f flag perm w = ((Some W, None), w1)
    /\ writing env c f W w1 [] []
    /\ mode_of w1 f = Some (mode_after_open env f perm w).
Proof.
  intros Hnf Ht Hsuf.
  destruct (WopenFile_sink_empty env f flag perm w Hnf Ht) as (fd & w0 & Hopen & Hfs & Hfd).
  unfold WopenFile. unfold mbind at 1, M_bind at 1. rewrite Hopen. cbv zeta.
  assert (Hflag : exists flag, writable flag = true
            /\ fds w0 !! fd = Some (mkDescriptor (OnPath f) flag 0)).
  { exists flag. split; [apply Ht | exact Hfd]. }
  destruct (NewWriter_step env c f fd w0 Hnf (ex_intro _ _ Hfs) Hflag)
    as (id & w1 & Hnew & Hs).
  assert (Hmode : mode_of w1 f = Some (mode_after_open env f perm w)).
  { pose proof (keeps_NewWriter env c fd w0 f) as Hk. rewrite Hnew in Hk.
    cbn [snd] in Hk. rewrite Hk. unfold mode_of. rewrite Hfs. reflexivity. }
  assert (Hfin : forall W,
    Writer_Writer W = bufio_NewWriterSize (ToEncoder c id) bufSize ->
    Writer_wtr W = fd -> encoder_field c id W -> writing env c f W w1 [] []).
  { intros W HW Hwtr Hfield. exists id. rewrite HW, Hwtr.
    cbn [bufio_NewWriterSize bw_wr bw_err bw_buf payload app].
    split; [exact Hfield|]. split; [reflexivity|]. split; [reflexivity|].
    split; [exact Hs|]. split; [constructor | reflexivity]. }
  destruct c.
  - cbn [suffix_of] in Hsuf. rewrite Hsuf.
    unfold mbind, M_bind. rewrite Hnew. cbn [mret M_ret].
    eexists _, _. split; [reflexivity|]. split; [apply Hfin; cbn; auto | exact Hmode].
  - pose proof (suffix_not xz gzip _ Hsuf ltac:(discriminate)) as Hg.
    cbn [suffix_of] in Hsuf, Hg. rewrite Hg, Hsuf.
    unfold mbind, M_bind. rewrite Hnew. cbn [mret M_ret].
    eexists _, _. split; [reflexivity|]. split; [apply Hfin; cbn; auto | exact Hmode].
  - pose proof (suffix_not zstd gzip _ Hsuf ltac:(discriminate)) as Hg.
    pose proof (suffix_not zstd xz _ Hsuf ltac:(discriminate)) as Hx.
    cbn [suffix_of] in Hsuf, Hg, Hx. rewrite Hg, Hx, Hsuf.
    unfold mbind, M_bind. rewrite Hnew. cbn [mret M_ret].
    eexists _, _. split; [reflexivity|]. split; [apply Hfin; cbn; auto | exact Hmode].
Qed.

(** ** Reading a file back *)

Lemma ExpandUser_plain env f c :
  String.get 0 f = Some c -> c <> "~"%char -> ExpandUser env f = (f, None).
Proof.
  intros Hget Hc. unfold ExpandUser. rewrite Hget.
  rewrite bool_decide_eq_false_2 by congruence.
  rewrite orb_true_r. reflexivity.
Qed.

Lemma permitted_O_RDONLY env mode : permitted env O_RDONLY mode = may env mode S_IRUSR.
Proof.
  unfold permitted.
  change (needs_read O_RDONLY) with true. change (needs_write O_RDONLY) with false.
  cbn [negb orb]. apply andb_true_r.
Qed.

Lemma os_Open_file env f mode data w :
  fault env (CallOpenFile f) = None ->
  fs w !! f = Some (Regular mode data) ->
  may env mode S_IRUSR = true ->
  exists fd w1, os_Open env f w = (ok (FileReader fd (mkStream data io_EOF)), w1).
Proof.
  intros Hnf Hfs Hr. unfold os_Open, os_OpenFile. rewrite Hnf.
  unfold new_fd, mbind, M_bind, gets, modify, mret, M_ret.
  rewrite Hfs, permitted_O_RDONLY, Hr.
  change (has_flag O_RDONLY O_CREATE) with false.
  change (has_flag O_RDONLY O_TRUNC) with false.
  cbn [andb negb fs fds set_fs set_fds fst snd]. rewrite Hfs.
  eexists _, _. reflexivity.
Qed.

Lemma Ropen_file env f mode data w :
  plain_path f ->
  fault env (CallOpenFile f) = None ->
  fs w !! f = Some (Regular mode data) ->
  may env mode S_IRUSR = true ->
  exists fd,
    (Ropen env f w).1 = Returns (Buf env (FileReader fd (mkStream data io_EOF))).
Proof.
  intros (Hdash & (c & Hget & Hpipe & Htilde) & Hhttp & Hhttps) Hnf Hfs Hmay.
  unfold Ropen. rewrite Hdash, Hget.
  destruct (Ascii.eqb c "|") eqn:E; [apply Ascii.eqb_eq in E; contradiction|].
  unfold mbind at 1, M_bind at 1. unfold XReader. rewrite Hhttp, Hhttps. cbn [orb].
  rewrite (ExpandUser_plain env f c Hget Htilde).
  unfold mbind at 1, M_bind at 1. rewrite os_Stat_eq, Hfs.
  unfold mbind at 1, M_bind at 1.
  destruct (os_Open_file env f mode data w Hnf Hfs Hmay) as (fd & w1 & Hopen). rewrite Hopen.
  exists fd. reflexivity.
Qed.

Lemma Buf_encoded env c ops r :
  codec_sound env c -> Forall in_session ops ->
  reader_stream r = mkStream (enc_output env c (OpNew :: ops ++ [OpClose])) io_EOF ->
  Buf env r
  = Buf_BOM (bufio_NewReaderSize (mkStream (payload ops) io_EOF) bufSize) r
            (match c with gzip => Some gzip | _ => None end).
Proof.
  intros Hc Hops Hr. destruct (Hc ops Hops) as [(Hpay & Hout) | (Hmagic & Hlen & Hdec)].
  { rewrite Buf_empty_stream by (rewrite Hr, Hout; reflexivity).
    rewrite Buf_BOM_empty by (rewrite Hpay; reflexivity). reflexivity. }
  unfold Buf. destruct c; cbn [magic length gzip_magic xz_magic zstd_magic] in Hmagic.
  - rewrite Buf_sniff_gzip by (rewrite Hr; exact Hmagic). rewrite Hr, Hdec. reflexivity.
  - rewrite Buf_sniff_xz by (rewrite Hr; exact Hmagic). rewrite Hr, Hdec. reflexivity.
  - rewrite Buf_sniff_zstd by (rewrite Hr; cbn [avail]; assumption).
    rewrite Hr, Hdec. reflexivity.
Qed.

Lemma Buf_BOM_result b r rdr :
  br_data b <> [] ->
  exists rd, Buf_BOM b r rdr = (Some rd, None)
             /\ Reader_stream rd = mkStream (without_BOM (br_data b)) (br_end b).
Proof.
  intros Hne. unfold without_BOM. case_bool_decide as Hb.
  - assert (Hd : br_data b = BOM_bytes ++ drop 3 (br_data b)).
    { rewrite <- Hb. symmetry. apply take_drop. }
    rewrite (Buf_BOM_strip b r rdr _ Hd). eexists. split; reflexivity.
  - assert (Hrune : (bufio_ReadRune b).1.1.1 <> BOM).
    { intros Hr. apply first_rune_BOM_iff in Hr; [|exact Hne].
      destruct Hr as [rest Hr]. apply Hb. rewrite Hr. reflexivity. }
    rewrite (Buf_BOM_keep b r rdr Hne Hrune). eexists. split; reflexivity.
Qed.

(** ** The first rune of a stream that the sniffing stage lets through *)

(** A plain stream of six bytes or more is read without a leading
    byte-order mark, and otherwise as it is. *)
Lemma Buf_plain_byte_order_mark env r :
  (6 <= length (avail (reader_stream r)))%nat ->
  take 2 (avail (reader_stream r)) <> gzip_magic ->
  take 6 (avail (reader_stream r)) <> xz_magic ->
  take 4 (avail (reader_stream r)) <> zstd_magic ->
  exists rd,
    Buf env r = (Some rd, None)
    /\ Reader_stream rd
       = mkStream (without_BOM (avail (reader_stream r))) (ending (reader_stream r)).
Proof.
  intros Hlen Hg Hx Hz. rewrite Buf_plain_stream by assumption.
  apply Buf_BOM_result. cbn [peeked fresh_reader bufio_NewReaderSize br_data].
  intros H. rewrite H in Hlen. cbn in Hlen. lia.
Qed.

(** A stream that carries the signature of a codec is decoded; what the
    decoder gives is read without a leading byte-order mark, and an empty
    decoded stream is [ErrNoContent]. *)
Lemma Buf_decoded_byte_order_mark env r c s :
  take (length (magic c)) (avail (reader_stream r)) = magic c ->
  (c = zstd -> (6 <= length (avail (reader_stream r)))%nat) ->
  codec_NewReader env c (reader_stream r) = ok s ->
  (avail s = [] -> Buf env r = (None, Some ErrNoContent))
  /\ (avail s <> [] ->
      exists rd, Buf env r = (Some rd, None)
                 /\ Reader_stream rd = mkStream (without_BOM (avail s)) (ending s)).
Proof.
  intros Hm Hlen Hdec.
  assert (Hbuf : Buf env r
                 = Buf_BOM (bufio_NewReaderSize s bufSize) r
                           (match c with gzip => Some gzip | _ => None end)).
  { unfold Buf. destruct c; cbn [magic length gzip_magic xz_magic zstd_magic] in Hm.
    - rewrite Buf_sniff_gzip by exact Hm. rewrite Hdec. reflexivity.
    - rewrite Buf_sniff_xz by exact Hm. rewrite Hdec. reflexivity.
    - rewrite Buf_sniff_zstd by auto. rewrite Hdec. reflexivity. }
  rewrite Hbuf. split.
  - intros He. apply Buf_BOM_empty. exact He.
  - intros Hne. apply Buf_BOM_result. exact Hne.
Qed.

(** The stored gzip stream whose content is the byte-order mark and "hi" is
    read as "hi". *)
Lemma Buf_marked_gzip :
  exists rd, Buf demo_env marked_gzip = (Some rd, None)
             /\ Reader_stream rd = mkStream [x68; x69] io_EOF.
Proof.
  apply (Buf_decoded_byte_order_mark demo_env marked_gzip gzip
           (mkStream (BOM_bytes ++ [x68; x69]) io_EOF));
    [reflexivity | discriminate | reflexivity | discriminate].
Qed.

(** ** Writing a compressed file and reading it back *)
Lemma write_then_read_Buf env c f flag perm B w :
  no_fault env -> codec_sound env c -> plain_path f ->
  writable_target env f flag w ->
  readable_back env f perm w ->
  strings_HasSuffix (strings_ToLower f) (suffix_of c) = true ->
  exists r,
    (write_then_read env f flag perm B w).1
    = Returns (Buf_BOM (bufio_NewReaderSize (mkStream B io_EOF) bufSize) r
                       (match c with gzip => Some gzip | _ => None end)).
Proof.
  intros Hnf Hc Hp Ht Hrb Hsuf. unfold write_then_read.
  destruct (WopenFile_step env c f flag perm w Hnf Ht Hsuf)
    as (W & w1 & Hopen & Hw & Hmode).
  unfold mbind at 1, M_bind at 1. rewrite Hopen. cbv iota beta.
  destruct (Writer_Write_step env c f W w1 [] [] B Hnf Hw) as (ops & _ & Hw2).
  pose proof (keeps_Writer_Write env W B w1 f) as Hk1.
  unfold mbind at 1, M_bind at 1.
  destruct (Writer_Write env W B w1) as [[err W2] w2]. cbn [fst snd app] in Hw2, Hk1.
  destruct (Writer_Close_step env c f W2 w2 ops B Hnf Hw2)
    as (ops' & Hops' & Hpay & mode & Hfs).
  pose proof (keeps_Writer_Close env W2 w2 f) as Hk2.
  unfold mbind at 1, M_bind at 1.
  destruct (Writer_Close env W2 w2) as [e w3]. cbn [fst snd] in Hfs, Hk2.
  assert (Hm : mode = mode_after_open env f perm w).
  { rewrite Hk1, Hmode in Hk2. unfold mode_of in Hk2. rewrite Hfs in Hk2. congruence. }
  subst mode.
  destruct (Ropen_file env f _ _ w3 Hp (Hnf _) Hfs Hrb) as (fd & Hread).
  rewrite Hread.
  exists (FileReader fd (mkStream (enc_output env c (OpNew :: ops' ++ [OpClose])) io_EOF)).
  rewrite (Buf_encoded env c ops' (FileReader fd _) Hc Hops' eq_refl), Hpay. reflexivity.
Qed.

(** C1, counterexample.  With each of the three suffixes, bytes that start
    with EF BB BF are read back without these three bytes, and the empty
    byte sequence is not read back at all: the open fails with
    [ErrNoContent].  A file created with the permission bits 0 cannot be
    opened again by a caller without privilege.  A descriptor that starts
    with "~" is written under that very name and read from the home
    directory, where there is no such file; one that starts with "|" is
    written as a file and read from the output of a child process; one that
    is an address is written as a file and read from the network. *)
Lemma round_trip_is_not_exact :
  (forall f, f = "out.gz" \/ f = "out.xz" \/ f = "out.zst" ->
     read_back (write_then_read demo_env f O_WRONLY_CREATE_TRUNC 0x1a4
                  (BOM_bytes ++ [x41]) demo_world).1 = Some [x41]
     /\ ~ round_trip_exact demo_env f O_WRONLY_CREATE_TRUNC 0x1a4
            (BOM_bytes ++ [x41]) demo_world)
  /\ (write_then_read demo_env "out.gz" O_WRONLY_CREATE_TRUNC 0x1a4 [] demo_world).1
     = Returns (None, Some ErrNoContent)
  /\ ~ round_trip_exact demo_env "out.gz" O_WRONLY_CREATE_TRUNC 0x1a4 [] demo_world
  /\ (write_then_read demo_env "out.gz" O_WRONLY_CREATE_TRUNC 0 [x68; x69] demo_world).1
     = Returns (None, Some os_ErrPermission)
  /\ ~ round_trip_exact demo_env "out.gz" O_WRONLY_CREATE_TRUNC 0 [x68; x69] demo_world
  /\ (write_then_read demo_env "~/out.gz" O_WRONLY_CREATE_TRUNC 0x1a4 [x68; x69]
        demo_world).1
     = Returns (None, Some os_ErrNotExist)
  /\ ~ round_trip_exact demo_env "~/out.gz" O_WRONLY_CREATE_TRUNC 0x1a4 [x68; x69]
        demo_world
  /\ read_back (write_then_read demo_env "|out.gz" O_WRONLY_CREATE_TRUNC 0x1a4 [x68; x69]
                 demo_world).1
     = Some (String.list_byte_of_string "argv: out.gz")
  /\ ~ round_trip_exact demo_env "|out.gz" O_WRONLY_CREATE_TRUNC 0x1a4 [x68; x69]
        demo_world
  /\ (write_then_read demo_env "http://example.org/out.gz" O_WRONLY_CREATE_TRUNC 0x1a4
        [x68; x69] demo_world).1
     = Returns (None, Some (ErrExternal "no network"))
  /\ ~ round_trip_exact demo_env "http://example.org/out.gz" O_WRONLY_CREATE_TRUNC 0x1a4
        [x68; x69] demo_world.
Proof.
  split.
  { intros f [-> | [-> | ->]]; (split; [vm_compute; reflexivity|]);
      intros H; vm_compute in H; discriminate. }
  repeat match goal with |- _ /\ _ => split end;
    first [ vm_compute; reflexivity | intros H; vm_compute in H; discriminate ].
Qed.

(** C1, as the code has it.  For each of the three suffixes (in any letter
    case), on a descriptor that is a plain path, with codecs whose output
    starts with the signature of the format, is at least six bytes long and
    decodes to the bytes written, and with no failure of the environment:
    opening with [WopenFile] under flags that create or truncate the file
    for writing, where the modes permit that open and let the caller read
    the file afterwards (the mode the file has, or [perm] less the mask for
    a file that is created), writing [B], closing, and opening the same
    descriptor with [Ropen] gives a reader of [B] without a leading
    byte-order mark when [B] is not empty (so exactly [B] when [B] does not
    start with EF BB BF), and [ErrNoContent] when [B] is empty. *)
Theorem write_then_read_round_trip (env : Env) (c : codec) (f : string)
    (flag perm : Z) (B : list byte) (w : World) :
  no_fault env -> codec_sound env c -> plain_path f ->
  writable_target env f flag w ->
  readable_back env f perm w ->
  strings_HasSuffix (strings_ToLower f) (suffix_of c) = true ->
  (B <> [] ->
     (exists rd, (write_then_read env f flag perm B w).1 = Returns (Some rd, None)
                 /\ Reader_stream rd = mkStream (without_BOM B) io_EOF)
     /\ (take 3 B <> BOM_bytes -> round_trip_exact env f flag perm B w))
  /\ (B = [] ->
       (write_then_read env f flag perm B w).1 = Returns (None, Some ErrNoContent)).
Proof.
  intros Hnf Hc Hp Ht Hrb Hsuf.
  destruct (write_then_read_Buf env c f flag perm B w Hnf Hc Hp Ht Hrb Hsuf) as (r & Hrun).
  split.
  - intros HB.
    destruct (Buf_BOM_result (bufio_NewReaderSize (mkStream B io_EOF) bufSize) r
                (match c with gzip => Some gzip | _ => None end) HB)
      as (rd & Hrd & Hstream).
    cbn [bufio_NewReaderSize br_data br_end avail ending] in Hstream.
    split.
    + exists rd. rewrite Hrun, Hrd. auto.
    + intros Hno. unfold round_trip_exact. rewrite Hrun, Hrd. cbn [read_back].
      rewrite Hstream. cbn [avail]. unfold without_BOM.
      rewrite bool_decide_eq_false_2 by exact Hno. reflexivity.
  - intros ->. rewrite Hrun. rewrite Buf_BOM_empty by reflexivity. reflexivity.
Qed.

(** ** The concrete environment meets the hypotheses *)
Lemma demo_no_fault : no_fault demo_env.
Proof. intros c. reflexivity. Qed.

Lemma stored_emitted c done ops :
  Forall (fun op => op <> OpNew) ops ->
  emitted demo_env c done ops = payload ops.
Proof.
  revert done. induction ops as [|op ops IH]; intros done Hops; [reflexivity|].
  inversion Hops as [|? ? Hop Hrest]; subst. cbn [emitted].
  rewrite (IH _ Hrest). destruct op; cbn; try reflexivity.
  - contradiction.
Qed.

Lemma stored_codec_sound c : codec_sound demo_env c.
Proof.
  intros ops Hops. cbv zeta. unfold enc_output. cbn [emitted app].
  rewrite stored_emitted.
  2:{ apply Forall_app. split.
      - eapply Forall_impl; [exact Hops|]. intros [] H; try discriminate; destruct H.
      - repeat constructor. discriminate. }
  rewrite payload_app. cbn [payload]. rewrite app_nil_r.
  change (codec_emit demo_env c [] OpNew) with (stored_header c).
  right. split; [|split].
  - destruct c; reflexivity.
  - rewrite length_app. destruct c; cbn; lia.
  - cbn [codec_NewReader demo_env]. unfold stored_NewReader. cbn [avail ending].
    rewrite take_app_length, drop_app_length.
    rewrite bool_decide_eq_true_2 by reflexivity. reflexivity.
Qed.

Lemma demo_plain_path : plain_path "out.gz".
Proof.
  split; [reflexivity|]. split; [|split; reflexivity].
  exists "o"%char. split; [reflexivity|]. split; discriminate.
Qed.

Lemma demo_writable_target :
  writable_target demo_env "out.gz" O_WRONLY_CREATE_TRUNC demo_world.
Proof.
  split; [reflexivity|]. split; [vm_compute; discriminate|].
  split; [intros mode d; vm_compute; discriminate|].
  split; [intros mode; vm_compute; discriminate|]. repeat split.
Qed.

Lemma demo_readable_back : readable_back demo_env "out.gz" 0x1a4 demo_world.
Proof. reflexivity. Qed.

Lemma write_then_read_round_trip_witness :
  round_trip_exact demo_env "out.gz" O_WRONLY_CREATE_TRUNC 0x1a4 [x68; x69] demo_world.
Proof.
  apply (write_then_read_round_trip demo_env gzip "out.gz" O_WRONLY_CREATE_TRUNC 0x1a4
           [x68; x69] demo_world demo_no_fault (stored_codec_sound gzip)
           demo_plain_path demo_writable_target demo_readable_back eq_refl).
  - discriminate.
  - vm_compute. discriminate.
Defined.

(** [Wopen] passes [os.O_RDONLY]: a file that does not exist is not created,
    and bytes written to one that exists do not reach it. *)
Lemma Wopen_cannot_write :
  (Wopen demo_env "out.gz" demo_world).1 = (None, Some os_ErrNotExist)
  /\ (exists W w1,
        Wopen demo_env "out.gz" world_with_file = ((Some W, None), w1)
        /\ fs ((Writer_Write demo_env W [x68; x69] ≫= fun '(_, W) =>
                Writer_Close demo_env W) w1).2 !! "out.gz" = Some (Regular 0x1a4 [])).
Proof.
  split; [vm_compute; reflexivity|].
  eexists _, _. split; [vm_compute; reflexivity|]. vm_compute. reflexivity.
Qed.

(** ** Flushing a writer *)

(** C8, counterexample.  The writer that [WopenFile] gives for "out.xz" has
    its xz encoder set, and [Flush] on it flushes the buffer only: no call
    reaches the encoder. *)
Lemma Writer_Flush_skips_xz :
  Writer_xw (opened_Writer demo_env "out.xz") <> None
  /\ trace (Writer_Flush demo_env (opened_Writer demo_env "out.xz")
              (opened demo_env "out.xz").2).2
     = [CallBufFlush]
  /\ ~ Flush_drains_encoder demo_env (opened_Writer demo_env "out.xz") xz
         (opened demo_env "out.xz").2.
Proof.
  split; [vm_compute; discriminate|]. split; [vm_compute; reflexivity|].
  intros H. vm_compute in H. discriminate.
Qed.

Lemma encoder_flush_calls_field c id W :
  encoder_field c id W ->
  encoder_flush_calls W = match c with xz => [] | _ => [CallEncFlush c] end.
Proof.
  unfold encoder_flush_calls. destruct c; intros (Hg & _ & Hz); rewrite Hg, Hz; reflexivity.
Qed.

(** C8, as the code has it.  For a writer over an encoder, with no failure
    of the environment: [Flush] flushes the buffer and then the encoder when
    it is a gzip or zstd encoder, and flushes the buffer only when it is an
    xz encoder.  Afterwards the buffer is empty and the encoder has been
    given every byte written so far; the gzip and zstd encoders have been
    asked to flush, the xz encoder has not. *)
Theorem Writer_Flush_drains (env : Env) (c : codec) (f : string)
    (W : Writer) (w : World) (ops : list enc_op) (B : list byte) :
  no_fault env ->
  writing env c f W w ops B ->
  trace (Writer_Flush env W w).2
  = trace w ++ CallBufFlush :: match c with xz => [] | _ => [CallEncFlush c] end
  /\ exists ws,
       writing env c f (Writer_Flush env W w).1 (Writer_Flush env W w).2
               (ops ++ ws ++ flush_ops c) B
       /\ payload ws = bw_buf (Writer_Writer W)
       /\ bw_buf (Writer_Writer (Writer_Flush env W w).1) = []
       /\ payload (ops ++ ws ++ flush_ops c) = B.
Proof.
  intros Hnf Hw. split.
  - rewrite (emits_Writer_Flush env W w). destruct Hw as (id & Hf & _).
    rewrite (encoder_flush_calls_field c id W Hf). reflexivity.
  - destruct (Writer_Flush_step env c f W w ops B Hnf Hw) as (ws & Hw' & Hpay & Hempty).
    exists ws. split; [exact Hw'|]. split; [exact Hpay|]. split; [exact Hempty|].
    destruct Hw' as (id & _ & _ & _ & _ & _ & HB).
    rewrite Hempty, app_nil_r in HB. exact HB.
Qed.

(** The writer for "out.gz" after "hi" was written to it: the two bytes are
    in the buffer and the file holds the header alone.  [Flush] empties the
    buffer, the encoder is given "hi" and is flushed, and the file holds the
    header and "hi". *)
Lemma Writer_Flush_drains_witness :
  let W := (written demo_env "out.gz" [x68; x69]).1.2 in
  let w := (written demo_env "out.gz" [x68; x69]).2 in
  (bw_buf (Writer_Writer W) = [x68; x69]
   /\ fs w !! "out.gz" = Some (Regular 0x1a4 (stored_header gzip)))
  /\ (bw_buf (Writer_Writer (Writer_Flush demo_env W w).1) = []
      /\ fs (Writer_Flush demo_env W w).2 !! "out.gz"
         = Some (Regular 0x1a4 (stored_header gzip ++ [x68; x69])))
  /\ (trace (Writer_Flush demo_env W w).2
      = trace w ++ [CallBufFlush; CallEncFlush gzip]
      /\ exists ws,
           writing demo_env gzip "out.gz" (Writer_Flush demo_env W w).1
                   (Writer_Flush demo_env W w).2 ([] ++ ws ++ flush_ops gzip) [x68; x69]
           /\ payload ws = bw_buf (Writer_Writer W)
           /\ bw_buf (Writer_Writer (Writer_Flush demo_env W w).1) = []
           /\ payload ([] ++ ws ++ flush_ops gzip) = [x68; x69]).
Proof.
  cbv zeta.
  split; [split; vm_compute; reflexivity|].
  split; [split; vm_compute; reflexivity|].
  apply (Writer_Flush_drains demo_env gzip "out.gz" _ _ [] [x68; x69] demo_no_fault).
  exists 0%nat.
  split; [vm_compute; auto|]. split; [vm_compute; reflexivity|].
  split; [vm_compute; reflexivity|]. split.
  - split; [vm_compute; reflexivity|]. split.
    + exists O_WRONLY_CREATE_TRUNC. split; vm_compute; reflexivity.
    + exists 0x1a4%Z. vm_compute. reflexivity.
  - split; [constructor | vm_compute; reflexivity].
Defined.

(** ** Pipe descriptors *)

(** C3, the code at a failing input.  For "|ls -lh somefile.gz" the split
    has three parts, so [Ropen] starts "ls" with no argument at all; with the
    space that the README writes after the bar, the command name is the empty
    string.  Only a command with exactly one argument keeps it. *)
Theorem Ropen_pipe_drops_arguments (env : Env) (w : World) :
  Ropen_Command "|ls -lh somefile.gz" = ("ls", [])
  /\ Ropen env "|ls -lh somefile.gz" w
     = (Returns
          match exec_StdoutPipe env "ls" [] with
          | Some err => (None, Some err)
          | None =>
              match exec_Start env "ls" [] with
              | fail err => (None, Some err)
              | ok out => Buf env (PipeReader "ls" [] out)
              end
          end, w)
  /\ Ropen_Command "| ls -lh somefile.gz" = ("", [])
  /\ Ropen_Command "|ls -lh" = ("ls", ["-lh"]).
Proof.
  split; [reflexivity|]. split; [|split; reflexivity].
  unfold Ropen. cbn [String.eqb Ascii.eqb String.get].
  change (Ropen_Command "|ls -lh somefile.gz") with ("ls", @nil string).
  cbv iota beta.
  destruct (exec_StdoutPipe env "ls" []); [reflexivity|].
  destruct (exec_Start env "ls" []); reflexivity.
Qed.

(** In the concrete environment the child prints its command line: it was
    started as "ls" alone. *)
Lemma Ropen_pipe_run :
  read_back (Ropen demo_env "|ls -lh somefile.gz" demo_world).1
  = Some (String.list_byte_of_string "argv: ls").
Proof. vm_compute. reflexivity. Qed.

(** ** Home directories *)

(** C5, the code at a failing input.  For "~bob/docs" the user "bob" is
    looked up and the result is his home directory followed by "/bob/docs":
    the user name is not removed from the path.  "~/docs" gives the current
    user's home followed by "//docs", and a user that cannot be resolved
    gives the error of the lookup. *)
Theorem ExpandUser_keeps_user_name (env : Env) :
  ExpandUser env "~bob/docs"
  = match user_Lookup env "bob" with
    | fail err => ("", Some err)
    | ok u => (HomeDir u +:+ "/bob/docs", None)
    end
  /\ ExpandUser demo_env "~bob/docs" = ("/home/bob/bob/docs", None)
  /\ ExpandUser demo_env "~/docs" = ("/home/me//docs", None)
  /\ ExpandUser demo_env "~carol/docs" = ("", Some (ErrExternal "user: unknown user")).
Proof.
  split; [|repeat split].
  unfold ExpandUser. cbn. destruct (user_Lookup env "bob"); reflexivity.
Qed.

(** ** The empty descriptor *)

(** C9, the code at the failing input.  [Ropen] on the empty string
    evaluates [f[0]] and panics. *)
Theorem Ropen_empty_descriptor_panics (env : Env) (w : World) :
  Ropen env "" w = (Panics "index out of range [0] with length 0", w).
Proof. reflexivity. Qed.

Lemma XReader_result env f w :
  (exists err, (XReader env f w).1 = (None, Some err))
  \/ (exists r, (XReader env f w).1 = (Some r, None)).
Proof.
  unfold XReader.
  destruct (strings_HasPrefix f "http://" || strings_HasPrefix f "https://").
  - destruct (http_Get env f) as [[[code status] body]|e]; [|left; eexists; reflexivity].
    destruct (negb (code =? 200)%Z); [left | right]; eexists; reflexivity.
  - destruct (ExpandUser env f) as [f' [e|]]; [left; eexists; reflexivity|].
    unfold mbind, M_bind.
    destruct (os_Stat f' w) as [[[|]|e] w0]; try (left; eexists; reflexivity).
    destruct (os_Open env f' w0) as [[r|e] w1]; [right | left]; eexists; reflexivity.
Qed.

(** On every descriptor but the empty one [Ropen] returns. *)
Lemma Ropen_returns env f w :
  f <> "" -> exists r, (Ropen env f w).1 = Returns r.
Proof.
  intros Hne. unfold Ropen. destruct (String.eqb f "-").
  { destruct (negb (IsStdin env)); eexists; reflexivity. }
  destruct f as [|c f]; [contradiction|]. cbn [String.get].
  destruct (Ascii.eqb c "|").
  - destruct (Ropen_Command (String c f)) as [name arg].
    destruct (exec_StdoutPipe env name arg); [eexists; reflexivity|].
    destruct (exec_Start env name arg); eexists; reflexivity.
  - unfold mbind, M_bind.
    destruct (XReader_result env (String c f) w) as [[e H]|[r H]];
      destruct (XReader env (String c f) w) as [[rdr err] w1];
      cbn [fst] in H; inversion H; subst; eexists; reflexivity.
Qed.

(** * Further properties *)

(** ** The buffered writer over a file or standard output *)

Lemma file_Write_raw env t fd data p w :
  no_fault env ->
  raw_holds t fd data w ->
  (file_Write env fd p w).1 = None
  /\ raw_holds t fd (data ++ p) (file_Write env fd p w).2.
Proof.
  intros Hnf (flag & Hw & Ht). destruct t as [name| |]; [| destruct Ht |].
  - destruct Ht as (Hfd & mode & Hfs).
    rewrite (file_Write_append env fd name flag mode data p w Hnf Hfd Hw Hfs).
    split; [reflexivity|]. exists flag. split; [exact Hw|].
    unfold appended. cbn [snd fds fs set_fds set_fs].
    rewrite !lookup_insert_eq, length_app. eauto.
  - destruct Ht as ((pos & Hfd) & Hout).
    unfold file_Write, mbind, M_bind, gets, modify, mret, M_ret.
    rewrite Hfd, (Hnf (CallFileWrite fd)). cbn [d_flag d_target]. rewrite Hw.
    cbn [negb fst snd]. split; [reflexivity|]. exists flag. split; [exact Hw|].
    cbn [fds set_stdout_data stdout_data]. rewrite Hout. eauto.
Qed.

Lemma bufio_Flush_raw env t fd data b w :
  no_fault env ->
  raw_holds t fd data w ->
  bw_wr b = ToFile fd -> bw_err b = None ->
  (bufio_Flush env b w).1 = (None, mkBufWriter None [] (bw_size b) (bw_wr b))
  /\ raw_holds t fd (data ++ bw_buf b) (bufio_Flush env b w).2.
Proof.
  intros Hnf Hs Hwr Herr. unfold bufio_Flush. rewrite Herr.
  destruct (bw_buf b) as [|x buf] eqn:Hbuf.
  - cbn [mret M_ret fst snd]. rewrite app_nil_r. split; [|exact Hs].
    destruct b; cbn in *; subst; reflexivity.
  - unfold mbind, M_bind. rewrite Hwr. cbn [io_Write].
    destruct (file_Write_raw env t fd data (x :: buf) w Hnf Hs) as (Hr & Hs').
    destruct (file_Write env fd (x :: buf) w) as [err w'].
    cbn [fst snd] in Hr, Hs'. subst err. cbn [mret M_ret fst snd]. auto.
Qed.

Lemma bufio_Write_loop_raw env t fd fuel :
  no_fault env ->
  forall data b p w,
    raw_holds t fd data w ->
    bw_wr b = ToFile fd -> bw_err b = None ->
    exists data' b' p',
      (bufio_Write_loop fuel env b p w).1 = (b', p')
      /\ bw_wr b' = bw_wr b /\ bw_err b' = None
      /\ raw_holds t fd data' (bufio_Write_loop fuel env b p w).2
      /\ data' ++ bw_buf b' ++ p' = data ++ bw_buf b ++ p.
Proof.
  intros Hnf. induction fuel as [|fuel IH]; intros data b p w Hs Hwr Herr.
  - exists data, b, p. cbn [bufio_Write_loop]. destruct (_ && _); cbn; auto 10.
  - rewrite bufio_Write_loop_S. destruct (Write_goes_on b p).
    2:{ exists data, b, p. cbn. auto 10. }
    destruct (bw_buf b) as [|x buf] eqn:Hbuf.
    + unfold mbind, M_bind. rewrite Hwr. cbn [io_Write].
      destruct (file_Write_raw env t fd data p w Hnf Hs) as (Hr & Hs').
      destruct (file_Write env fd p w) as [err w'].
      cbn [fst snd] in Hr, Hs'. subst err.
      destruct (IH (data ++ p) b [] w' Hs' Hwr Herr)
        as (data' & b' & p' & Hrun & Hwr' & Herr' & Hs'' & Hsum).
      exists data', b', p'. rewrite Hrun. splits; auto; try congruence.
      rewrite Hsum, Hbuf. cbn [app]. rewrite !app_nil_r. reflexivity.
    + cbv zeta. unfold mbind, M_bind.
      set (n := Z.to_nat (bufio_Available b)).
      set (b1 := mkBufWriter (bw_err b) ((x :: buf) ++ take n p) (bw_size b) (bw_wr b)).
      destruct (bufio_Flush_raw env t fd data b1 w Hnf Hs Hwr Herr) as (Hr & Hs').
      destruct (bufio_Flush env b1 w) as [[err b2] w'].
      cbn [fst snd] in Hr, Hs'. inversion Hr; subst err b2; clear Hr.
      cbn [bw_size bw_wr bw_buf b1] in *.
      destruct (IH _ (mkBufWriter None [] (bw_size b) (bw_wr b))
                   (drop n p) w' Hs' Hwr eq_refl)
        as (data' & b' & p' & Hrun & Hwr' & Herr' & Hs'' & Hsum).
      exists data', b', p'. rewrite Hrun. splits; auto; try congruence.
      rewrite Hsum. cbn [bw_buf app].
      rewrite <- (take_drop n p) at 3.
      rewrite <- ?app_assoc. cbn [app]. rewrite <- ?app_assoc. reflexivity.
Qed.

Lemma bufio_Write_raw env t fd data b p w :
  no_fault env ->
  raw_holds t fd data w ->
  bw_wr b = ToFile fd -> bw_err b = None ->
  exists data' b',
    (bufio_Write env b p w).1 = (None, b')
    /\ bw_wr b' = bw_wr b /\ bw_err b' = None
    /\ raw_holds t fd data' (bufio_Write env b p w).2
    /\ data' ++ bw_buf b' = data ++ bw_buf b ++ p.
Proof.
  intros Hnf Hs Hwr Herr. unfold bufio_Write, mbind, M_bind.
  destruct (bufio_Write_loop_raw env t fd 2 Hnf data b p w Hs Hwr Herr)
    as (data' & b' & p' & Hrun & Hwr' & Herr' & Hs' & Hsum).
  destruct (bufio_Write_loop 2 env b p w) as [[b1 p1] w'].
  cbn [fst snd] in Hrun, Hs'. inversion Hrun; subst b1 p1; clear Hrun.
  rewrite Herr'. cbn [mret M_ret fst snd].
  exists data', (mkBufWriter None (bw_buf b' ++ p') (bw_size b') (bw_wr b')).
  cbn [bw_wr bw_err bw_size bw_buf]. splits; auto.
Qed.

Lemma Writer_Write_raw env t W w B p :
  no_fault env ->
  writing_raw t W w B ->
  exists W' w',
    Writer_Write env W p w = ((None, W'), w')
    /\ Writer_wtr W' = Writer_wtr W
    /\ writing_raw t W' w' (B ++ p).
Proof.
  intros Hnf (Hgz & Hxw & Hzw & Hwr & Herr & data & Hs & HB).
  unfold Writer_Write, mbind, M_bind.
  destruct (bufio_Write_raw env t (Writer_wtr W) data (Writer_Writer W) p w Hnf Hs Hwr Herr)
    as (data' & b' & Hrun & Hwr' & Herr' & Hs' & Hsum).
  destruct (bufio_Write env (Writer_Writer W) p w) as [[err b1] w'].
  cbn [fst snd] in Hrun, Hs'. inversion Hrun; subst err b1; clear Hrun.
  cbn [mret M_ret]. eexists _, _. split; [reflexivity|]. split; [reflexivity|].
  unfold writing_raw, with_Writer. cbn [Writer_Writer Writer_wtr Writer_gz Writer_xw Writer_zw].
  splits; auto; try congruence.
  exists data'. split; [exact Hs'|]. rewrite Hsum, app_assoc, HB. reflexivity.
Qed.

Lemma Writer_Flush_raw env t W w B :
  no_fault env ->
  writing_raw t W w B ->
  exists W' w',
    Writer_Flush env W w = (W', w')
    /\ Writer_wtr W' = Writer_wtr W
    /\ bw_buf (Writer_Writer W') = []
    /\ writing_raw t W' w' B
    /\ raw_holds t (Writer_wtr W) B w'.
Proof.
  intros Hnf (Hgz & Hxw & Hzw & Hwr & Herr & data & Hs & HB).
  unfold Writer_Flush. rewrite called_bind. unfold mbind at 1, M_bind at 1.
  assert (Hs0 : raw_holds t (Writer_wtr W) data (set_trace (trace w ++ [CallBufFlush]) w))
    by exact Hs.
  destruct (bufio_Flush_raw env t (Writer_wtr W) data (Writer_Writer W) _ Hnf Hs0 Hwr Herr)
    as (Hrun & Hs').
  destruct (bufio_Flush env (Writer_Writer W) (set_trace (trace w ++ [CallBufFlush]) w))
    as [[err b1] w1].
  cbn [fst snd] in Hrun, Hs'. inversion Hrun; subst err b1; clear Hrun.
  rewrite Hgz, Hzw, HB in *. rewrite !ret_bind. cbn [mret M_ret].
  eexists _, _. split; [reflexivity|].
  unfold writing_raw, with_Writer. cbn [Writer_Writer Writer_wtr Writer_gz Writer_xw Writer_zw
                                         bw_wr bw_err bw_buf].
  splits; auto. exists B. rewrite app_nil_r. auto.
Qed.

Lemma raw_holds_held t fd data w : raw_holds t fd data w -> held t w = Some data.
Proof.
  intros (flag & _ & Ht). destruct t as [name| |]; cbn [held].
  - destruct Ht as (_ & mode & Hfs). rewrite Hfs. reflexivity.
  - destruct Ht.
  - destruct Ht as (_ & ->). reflexivity.
Qed.

Lemma stdout_file_Close env f w : stdout_data (file_Close env f w).2 = stdout_data w.
Proof.
  unfold file_Close. rewrite called_bind.
  destruct (fault env (CallFileClose f)); [reflexivity|].
  unfold mbind, M_bind, gets. cbn [fds set_trace].
  destruct (fds w !! f); reflexivity.
Qed.

Lemma held_file_Close env t f w : held t (file_Close env f w).2 = held t w.
Proof.
  destruct t; cbn [held]; rewrite ?fs_file_Close, ?stdout_file_Close; reflexivity.
Qed.

(** After [Close] on an [*os.File] that the environment does not fail, the
    descriptor is not open. *)
Lemma fds_file_Close env f w :
  fault env (CallFileClose f) = None -> fds (file_Close env f w).2 !! f = None.
Proof.
  intros Hnf. unfold file_Close. rewrite called_bind, Hnf.
  unfold mbind, M_bind, gets, modify, mret, M_ret. cbn [fds set_trace].
  destruct (fds w !! f) eqn:Hf; cbn [snd fds set_fds set_trace].
  - apply lookup_delete_eq.
  - exact Hf.
Qed.

Lemma seq_world {A B} (m : M A) (k : M B) w : ((m ;; k) w).2 = (k (m w).2).2.
Proof. unfold mbind, M_bind. destruct (m w). reflexivity. Qed.

Lemma Writer_Close_raw env t W w B :
  no_fault env ->
  writing_raw t W w B ->
  held t (Writer_Close env W w).2 = Some B
  /\ fds (Writer_Close env W w).2 !! Writer_wtr W = None.
Proof.
  intros Hnf Hw.
  destruct (Writer_Flush_raw env t W w B Hnf Hw)
    as (W' & w' & Hrun & Hwtr & _ & (Hgz & Hxw & Hzw & _) & Hs).
  assert (Hc : (Writer_Close env W w).2 = (file_Close env (Writer_wtr W) w').2).
  { unfold Writer_Close. unfold mbind at 1, M_bind at 1. rewrite Hrun.
    rewrite Hgz, Hxw, Hzw, Hwtr. rewrite !ret_bind. rewrite seq_world. reflexivity. }
  rewrite Hc, held_file_Close. split.
  - eapply raw_holds_held. exact Hs.
  - apply fds_file_Close. apply Hnf.
Qed.

(** ** Writing a file without a suffix, and standard output *)

Lemma WopenFile_plain_step env f flag perm w :
  no_fault env ->
  writable_target env f flag w ->
  no_suffix f ->
  exists W w1,
    WopenFile env f flag perm w = ((Some W, None), w1)
    /\ writing_raw (OnPath f) W w1 []
    /\ mode_of w1 f = Some (mode_after_open env f perm w).
Proof.
  intros Hnf Ht Hsuf.
  destruct (WopenFile_sink_empty env f flag perm w Hnf Ht) as (fd & w1 & Hopen & Hfs & Hfd).
  unfold WopenFile. unfold mbind at 1, M_bind at 1. rewrite Hopen. cbv zeta.
  pose proof (Hsuf gzip) as Hg. pose proof (Hsuf xz) as Hx. pose proof (Hsuf zstd) as Hz.
  cbn [suffix_of] in Hg, Hx, Hz. rewrite Hg, Hx, Hz. cbn [mret M_ret].
  eexists _, _. split; [reflexivity|]. split.
  - unfold writing_raw. cbn [Writer_gz Writer_xw Writer_zw Writer_Writer Writer_wtr
                              bufio_NewWriterSize bw_wr bw_err bw_buf].
    splits; auto. exists []. split; [|reflexivity].
    exists flag. split; [apply Ht|]. cbn [length]. eauto.
  - unfold mode_of. rewrite Hfs. reflexivity.
Qed.

Lemma WopenFile_stdout env flag perm w :
  WopenFile env "-" flag perm w
  = ((Some (mkWriter (bufio_NewWriterSize (ToFile os_Stdout) bufSize)
                     os_Stdout None None None), None), w).
Proof. reflexivity. Qed.

(** X1.  A name without a compressing suffix: with no failure of the
    environment, what was written through [WopenFile], [Write] and [Close]
    is exactly what the file holds afterwards, [Close] returns nil, and the
    file has the mode it had before, or [perm] less the mask when it was
    created. *)
Theorem write_all_plain_file (env : Env) (f : string) (flag perm : Z)
    (B : list byte) (w : World) :
  no_fault env -> writable_target env f flag w -> no_suffix f ->
  (write_all env f flag perm B w).1 = None
  /\ fs (write_all env f flag perm B w).2 !! f
     = Some (Regular (mode_after_open env f perm w) B).
Proof.
  intros Hnf Ht Hsuf.
  destruct (WopenFile_plain_step env f flag perm w Hnf Ht Hsuf)
    as (W & w1 & Hopen & Hw & Hmode).
  destruct (Writer_Write_raw env (OnPath f) W w1 [] B Hnf Hw)
    as (W2 & w2 & Hrun2 & _ & Hw2).
  destruct (Writer_Close_raw env (OnPath f) W2 w2 _ Hnf Hw2) as (Hheld & _).
  pose proof (keeps_Writer_Write env W B w1 f) as Hk1. rewrite Hrun2 in Hk1.
  pose proof (keeps_Writer_Close env W2 w2 f) as Hk2. cbn [snd] in Hk1.
  assert (Hrun : write_all env f flag perm B w = Writer_Close env W2 w2).
  { unfold write_all. unfold mbind at 1, M_bind at 1. rewrite Hopen. cbv iota beta.
    unfold mbind at 1, M_bind at 1. rewrite Hrun2. reflexivity. }
  rewrite Hrun. split; [apply Writer_Close_nil|].
  rewrite Hk1, Hmode in Hk2. unfold mode_of in Hk2. cbn [held app] in Hheld.
  destruct (fs (Writer_Close env W2 w2).2 !! f) as [[m|m d]|]; congruence.
Qed.

Lemma demo_notes_target :
  writable_target demo_env "notes.txt" O_WRONLY_CREATE_TRUNC demo_world.
Proof.
  split; [reflexivity|]. split; [vm_compute; discriminate|].
  split; [intros mode d; vm_compute; discriminate|].
  split; [intros mode; vm_compute; discriminate|]. repeat split.
Qed.

Lemma notes_no_suffix : no_suffix "notes.txt".
Proof. intros []; reflexivity. Qed.

Lemma write_all_plain_file_witness :
  fs (write_all demo_env "notes.txt" O_WRONLY_CREATE_TRUNC 0x1a4 hello_world
        demo_world).2 !! "notes.txt"
  = Some (Regular 0x1a4 hello_world).
Proof.
  exact (proj2 (write_all_plain_file demo_env "notes.txt" O_WRONLY_CREATE_TRUNC 0x1a4
                  hello_world demo_world demo_no_fault demo_notes_target
                  notes_no_suffix)).
Defined.

(** X2.  A name without a compressing suffix, as a plain path: six bytes or
    more that start with none of the three signatures, written through
    [WopenFile] and [Close], are read back by [Ropen] without a leading
    byte-order mark and otherwise as they were written. *)
Theorem plain_write_then_read (env : Env) (f : string) (flag perm : Z)
    (B : list byte) (w : World) :
  no_fault env -> plain_path f ->
  writable_target env f flag w -> readable_back env f perm w -> no_suffix f ->
  (6 <= length B)%nat ->
  take 2 B <> gzip_magic -> take 6 B <> xz_magic -> take 4 B <> zstd_magic ->
  exists rd,
    (write_then_read env f flag perm B w).1 = Returns (Some rd, None)
    /\ Reader_stream rd = mkStream (without_BOM B) io_EOF.
Proof.
  intros Hnf Hp Ht Hrb Hsuf Hlen Hg Hx Hz.
  destruct (WopenFile_plain_step env f flag perm w Hnf Ht Hsuf)
    as (W & w1 & Hopen & Hw & Hmode).
  destruct (Writer_Write_raw env (OnPath f) W w1 [] B Hnf Hw)
    as (W2 & w2 & Hrun2 & _ & Hw2).
  destruct (Writer_Close_raw env (OnPath f) W2 w2 _ Hnf Hw2) as (Hheld & _).
  pose proof (keeps_Writer_Write env W B w1 f) as Hk1. rewrite Hrun2 in Hk1.
  pose proof (keeps_Writer_Close env W2 w2 f) as Hk2. cbn [snd] in Hk1.
  rewrite Hk1, Hmode in Hk2. unfold mode_of in Hk2. cbn [held app] in Hheld.
  unfold write_then_read. unfold mbind at 1, M_bind at 1. rewrite Hopen. cbv iota beta.
  unfold mbind at 1, M_bind at 1. rewrite Hrun2.
  unfold mbind at 1, M_bind at 1.
  destruct (Writer_Close env W2 w2) as [e w3]. cbn [snd] in Hheld, Hk2.
  destruct (fs w3 !! f) as [[m|m d]|] eqn:Hfs; try discriminate.
  assert (m = mode_after_open env f perm w) by congruence.
  assert (d = B) by congruence. subst m d.
  destruct (Ropen_file env f _ B w3 Hp (Hnf _) Hfs Hrb) as (fd & Hread).
  rewrite Hread.
  destruct (Buf_plain_byte_order_mark env (FileReader fd (mkStream B io_EOF)))
    as (rd & Hbuf & Hstream); auto.
  exists rd. rewrite Hbuf. auto.
Qed.

Lemma plain_write_then_read_witness :
  read_back (write_then_read demo_env "notes.txt" O_WRONLY_CREATE_TRUNC 0x1a4
               hello_world demo_world).1
  = Some hello_world.
Proof.
  destruct (plain_write_then_read demo_env "notes.txt" O_WRONLY_CREATE_TRUNC 0x1a4
              hello_world demo_world demo_no_fault)
    as (rd & Hrun & Hstream).
  - split; [reflexivity|]. split; [|split; reflexivity].
    exists "n"%char. split; [reflexivity|]. split; discriminate.
  - exact demo_notes_target.
  - reflexivity.
  - exact notes_no_suffix.
  - vm_compute. lia.
  - vm_compute. discriminate.
  - vm_compute. discriminate.
  - vm_compute. discriminate.
  - rewrite Hrun. cbn [read_back]. rewrite Hstream. reflexivity.
Defined.

(** X3.  The descriptor "-": whatever the flags and the permission bits,
    with standard output open and no failure of the environment, the bytes
    written through [WopenFile], [Write] and [Close] are appended to
    standard output, and [Close] closes standard output itself. *)
Theorem write_all_stdout (env : Env) (flag perm : Z) (B : list byte) (w : World) :
  no_fault env -> stdout_open w ->
  (write_all env "-" flag perm B w).1 = None
  /\ stdout_data (write_all env "-" flag perm B w).2 = stdout_data w ++ B
  /\ fds (write_all env "-" flag perm B w).2 !! os_Stdout = None.
Proof.
  intros Hnf (sflag & pos & Hwr & Hfd).
  set (W := mkWriter (bufio_NewWriterSize (ToFile os_Stdout) bufSize)
                     os_Stdout None None None).
  assert (Hw : writing_raw OnStdout W w (stdout_data w)).
  { unfold writing_raw, W. cbn [Writer_gz Writer_xw Writer_zw Writer_Writer Writer_wtr
                                 bufio_NewWriterSize bw_wr bw_err bw_buf].
    splits; auto. exists (stdout_data w). split; [|apply app_nil_r].
    exists sflag. split; [exact Hwr|]. eauto. }
  destruct (Writer_Write_raw env OnStdout W w _ B Hnf Hw) as (W2 & w2 & Hrun2 & Hwtr & Hw2).
  destruct (Writer_Close_raw env OnStdout W2 w2 _ Hnf Hw2) as (Hheld & Hclosed).
  assert (Hrun : write_all env "-" flag perm B w = Writer_Close env W2 w2).
  { unfold write_all. unfold mbind at 1, M_bind at 1. rewrite WopenFile_stdout.
    cbv iota beta. fold W. unfold mbind at 1, M_bind at 1. rewrite Hrun2. reflexivity. }
  rewrite Hrun. split; [apply Writer_Close_nil|]. split.
  - cbn [held] in Hheld. congruence.
  - rewrite Hwtr in Hclosed. exact Hclosed.
Qed.

Lemma demo_stdout_open : stdout_open demo_world.
Proof. exists O_WRONLY, 0%nat. split; reflexivity. Qed.

Lemma write_all_stdout_witness :
  stdout_data (write_all demo_env "-" O_RDONLY 0 hello_world demo_world).2 = hello_world
  /\ fds (write_all demo_env "-" O_RDONLY 0 hello_world demo_world).2 !! os_Stdout = None.
Proof.
  exact (proj2 (write_all_stdout demo_env O_RDONLY 0 hello_world demo_world
                  demo_no_fault demo_stdout_open)).
Defined.

(** ** Opening a path for reading *)

Lemma XReader_plain env f w :
  plain_path f ->
  XReader env f w
  = (fi ← os_Stat f;
     match fi with
     | fail err => mret (None, Some err)
     | ok true => mret (None, Some ErrDirNotSupported)
     | ok false =>
         r ← os_Open env f;
         match r with
         | fail err => mret (None, Some err)
         | ok r => mret (Some r, None)
         end
     end) w.
Proof.
  intros (_ & (c & Hget & _ & Htilde) & Hhttp & Hhttps).
  unfold XReader. rewrite Hhttp, Hhttps. cbn [orb].
  rewrite (ExpandUser_plain env f c Hget Htilde). reflexivity.
Qed.

Lemma Ropen_plain env f w :
  plain_path f ->
  Ropen env f w
  = ('(rdr, err) ← XReader env f;
     match err, rdr with
     | Some err, _ => mret (Returns (None, Some err))
     | None, Some rdr => mret (Returns (Buf env rdr))
     | None, None => mret (Panics "nil reader")
     end) w.
Proof.
  intros (Hdash & (c & Hget & Hpipe & _) & _).
  unfold Ropen. rewrite Hdash, Hget.
  destruct (Ascii.eqb c "|") eqn:E; [apply Ascii.eqb_eq in E; contradiction|].
  reflexivity.
Qed.



(** ** Opening an address and standard input *)

Lemma HasPrefix_http f :
  strings_HasPrefix f "http://" = true \/ strings_HasPrefix f "https://" = true ->
  exists f', f = String "h" f'.
Proof.
  unfold strings_HasPrefix. destruct f as [|a f']; [intros [H|H]; discriminate H|].
  cbn [String.prefix].
  destruct (ascii_dec "h" a) as [<-|]; [eauto | intros [H|H]; discriminate H].
Qed.

(** X5.  An address that starts with "http://" or "https://" is fetched, and
    never looked up as a file: the error of the request is returned as it
    is; a status other than 200 gives the error that names the address and
    the status; with status 200 the body goes through [Buf].  The world is
    as before. *)
Theorem Ropen_url (env : Env) (f : string) (w : World) :
  strings_HasPrefix f "http://" = true \/ strings_HasPrefix f "https://" = true ->
  Ropen env f w
  = (Returns match http_Get env f with
             | fail err => (None, Some err)
             | ok (code, status, body) =>
                 if (code =? 200)%Z then Buf env (BodyReader f body)
                 else (None, Some (ErrHTTPStatus f status))
             end, w).
Proof.
  intros H. destruct (HasPrefix_http f H) as [f' ->].
  unfold Ropen. change (String.eqb (String "h" f') "-") with false. cbv iota.
  change (String.get 0 (String "h" f')) with (Some "h"%char).
  change (Ascii.eqb "h" "|") with false. cbv iota.
  unfold mbind at 1, M_bind at 1. unfold XReader.
  replace (strings_HasPrefix (String "h" f') "http://"
           || strings_HasPrefix (String "h" f') "https://") with true
    by (destruct H as [-> | ->]; [reflexivity | symmetry; apply orb_true_r]).
  destruct (http_Get env (String "h" f')) as [[[code status] body]|err]; [|reflexivity].
  destruct (code =? 200)%Z; reflexivity.
Qed.

Lemma Ropen_url_witness :
  read_back (Ropen web_env "http://example.org/notes.txt" demo_world).1 = Some hello_world
  /\ (Ropen web_env "https://example.org/none" demo_world).1
     = Returns (None, Some (ErrHTTPStatus "https://example.org/none" "404 Not Found")).
Proof.
  split.
  - rewrite (Ropen_url web_env "http://example.org/notes.txt" demo_world
               (or_introl eq_refl)).
    vm_compute. reflexivity.
  - rewrite (Ropen_url web_env "https://example.org/none" demo_world
               (or_intror eq_refl)).
    reflexivity.
Defined.

Lemma land_ModeCharDevice mode :
  (Z.land mode os_ModeCharDevice =? 0)%Z = negb (Z.testbit mode 21).
Proof.
  change os_ModeCharDevice with (2 ^ 21)%Z.
  destruct (Z.testbit mode 21) eqn:Hb; cbn [negb].
  - apply Z.eqb_neq. intros H0.
    assert (Hb' : Z.testbit (Z.land mode (2 ^ 21)) 21 = true).
    { rewrite Z.land_spec, Hb, Z.pow2_bits_true by lia. reflexivity. }
    rewrite H0, Z.bits_0 in Hb'. discriminate.
  - apply Z.eqb_eq. apply Z.bits_inj'. intros n Hn.
    rewrite Z.land_spec, Z.bits_0, Z.pow2_bits_eqb by lia.
    destruct (Z.eqb_spec 21 n) as [<-|]; [rewrite Hb; reflexivity | apply andb_false_r].
Qed.

(** X6.  The descriptor "-": standard input is read, through [Buf], exactly
    when [Stat] on it succeeds and the mode it reports has the
    character-device bit (bit 21 of [os.FileMode]) clear; otherwise the
    result is [ErrStdinNotDetected], also when [Stat] itself failed, and
    the error of [Stat] is not returned.  The world is as before. *)
Theorem Ropen_stdin (env : Env) (w : World) :
  Ropen env "-" w
  = (Returns match stdin_Stat env with
             | ok mode =>
                 if Z.testbit mode 21 then (None, Some ErrStdinNotDetected)
                 else Buf env (FileReader os_Stdin (stdin_stream env))
             | fail _ => (None, Some ErrStdinNotDetected)
             end, w).
Proof.
  unfold Ropen, IsStdin. change (String.eqb "-" "-") with true. cbv iota.
  destruct (stdin_Stat env) as [mode|e]; [|reflexivity].
  rewrite land_ModeCharDevice. destruct (Z.testbit mode 21); reflexivity.
Qed.

(** ** Refusals of [WopenFile] and [Wopen] *)

(** X7.  A path whose parent is a file: [WopenFile] returns the error that
    names the parent, before anything is created or opened, and the world is
    as before. *)
Theorem WopenFile_parent_is_file (env : Env) (f : string) (flag perm : Z) (w : World)
    (mode : Z) (data : list byte) :
  String.eqb f "-" = false ->
  fs w !! filepath_Dir env f = Some (Regular mode data) ->
  WopenFile env f flag perm w
  = ((None, Some (ErrNonDirectory (filepath_Dir env f))), w).
Proof.
  intros Hdash Hdir. unfold WopenFile, WopenFile_sink. rewrite Hdash.
  unfold mbind at 1, M_bind at 1. unfold mbind at 1, M_bind at 1.
  rewrite os_Stat_eq, Hdir. reflexivity.
Qed.

Lemma WopenFile_parent_is_file_witness :
  WopenFile demo_env "notes.txt/copy.gz" O_WRONLY_CREATE_TRUNC 0x1a4 world_with_notes
  = ((None, Some (ErrNonDirectory "notes.txt")), world_with_notes).
Proof.
  exact (WopenFile_parent_is_file demo_env "notes.txt/copy.gz" O_WRONLY_CREATE_TRUNC 0x1a4
           world_with_notes 0x1a4 hello_world eq_refl eq_refl).
Defined.



(** ** Decoders that refuse a stream *)

(** X9.  A stream that carries the signature of a codec (and, for zstd, has
    six bytes or more) but is refused by the decoder: [Buf] returns the
    decoder's error as it is, and no reader. *)
Theorem Buf_decoder_error (env : Env) (r : io_Reader) (c : codec) (e : error) :
  take (length (magic c)) (avail (reader_stream r)) = magic c ->
  (c = zstd -> (6 <= length (avail (reader_stream r)))%nat) ->
  codec_NewReader env c (reader_stream r) = fail e ->
  Buf env r = (None, Some e).
Proof.
  intros Hm Hlen Hdec. unfold Buf.
  destruct c; cbn [magic length gzip_magic xz_magic zstd_magic] in Hm.
  - rewrite Buf_sniff_gzip by exact Hm. rewrite Hdec. reflexivity.
  - rewrite Buf_sniff_xz by exact Hm. rewrite Hdec. reflexivity.
  - rewrite Buf_sniff_zstd by auto. rewrite Hdec. reflexivity.
Qed.

Lemma Buf_decoder_error_witness :
  Buf demo_env (BareReader (mkStream (gzip_magic ++ [x08; x00; x00]) io_EOF))
  = (None, Some (ErrExternal "invalid header")).
Proof.
  apply (Buf_decoder_error demo_env _ gzip); [reflexivity | discriminate | reflexivity].
Defined.

(** ** Splitting at a byte *)

Lemma strings_Split_no_sep s sep :
  has_char sep s = false -> strings_Split s sep = [s].
Proof.
  induction s as [|a s IH]; [reflexivity|]. cbn [has_char strings_Split].
  intros H. apply orb_false_elim in H as [Ha Hs]. rewrite Ha, (IH Hs). reflexivity.
Qed.

Lemma append_nil t : "" +:+ t = t.
Proof. reflexivity. Qed.

Lemma append_cons a s t : String a s +:+ t = String a (s +:+ t).
Proof. reflexivity. Qed.

Lemma strings_Split_app s rest sep :
  has_char sep s = false ->
  strings_Split (s +:+ String sep rest) sep = s :: strings_Split rest sep.
Proof.
  induction s as [|a s IH]; rewrite ?append_nil, ?append_cons; cbn [has_char strings_Split].
  - intros _. rewrite Ascii.eqb_refl. reflexivity.
  - intros H. apply orb_false_elim in H as [Ha Hs]. rewrite Ha, (IH Hs). reflexivity.
Qed.

(** ** Users that cannot be resolved *)

(** X10.  A path that names a user, alone or followed by a slash and more:
    the user is looked up under the name between "~" and the first slash,
    and when the lookup fails [ExpandUser] returns its error and the empty
    path. *)
Theorem ExpandUser_unresolved_user (env : Env) (name rest : string) (e : error) :
  name <> "" -> has_char "/" name = false ->
  user_Lookup env name = fail e ->
  ExpandUser env ("~" +:+ name) = ("", Some e)
  /\ ExpandUser env ("~" +:+ name +:+ "/" +:+ rest) = ("", Some e).
Proof.
  intros Hne Hslash Hlook.
  destruct name as [|a name']; [contradiction|].
  pose proof Hslash as Ha. cbn [has_char] in Ha. apply orb_false_elim in Ha as [Ha _].
  assert (Hget : bool_decide (Some a = Some "/"%char) = false).
  { apply bool_decide_eq_false_2. intros H.
    inversion H; subst. rewrite Ascii.eqb_refl in Ha. discriminate. }
  split; unfold ExpandUser; rewrite ?append_cons, ?append_nil;
    cbn [String.length Nat.eqb String.get orb];
    rewrite bool_decide_eq_true_2 by reflexivity; cbn [negb orb];
    rewrite Hget; cbn [tail1].
  - rewrite (strings_Split_no_sep (String a name') "/" Hslash).
    cbn. rewrite Hlook. reflexivity.
  - rewrite <- append_cons.
    rewrite (strings_Split_app (String a name') rest "/" Hslash).
    cbn. rewrite Hlook. reflexivity.
Qed.

Lemma ExpandUser_unresolved_user_witness :
  ExpandUser demo_env "~carol" = ("", Some (ErrExternal "user: unknown user"))
  /\ ExpandUser demo_env "~carol/docs" = ("", Some (ErrExternal "user: unknown user")).
Proof.
  apply (ExpandUser_unresolved_user demo_env "carol" "docs"); [discriminate | reflexivity..].
Defined.

(** ** Commands with no argument or with one *)

(** X11.  A pipe descriptor whose command has no space in it is started
    without arguments, and one whose command is followed by a single space
    and one argument is started with that argument; the errors of the pipe
    and of the start are returned as they are, and otherwise the output of
    the child goes through [Buf]. *)
Theorem Ropen_pipe_command (env : Env) (name arg : string) (w : World) :
  has_char " " name = false -> has_char " " arg = false ->
  Ropen env ("|" +:+ name) w = (Returns (spawned env name []), w)
  /\ Ropen env ("|" +:+ name +:+ " " +:+ arg) w = (Returns (spawned env name [arg]), w).
Proof.
  intros Hname Harg.
  assert (Hrun : forall cmd args,
            Ropen_Command (String "|" cmd) = (name, args) ->
            Ropen env (String "|" cmd) w = (Returns (spawned env name args), w)).
  { intros cmd args Hcmd. unfold Ropen, spawned.
    change (String.eqb (String "|" cmd) "-") with false. cbv iota.
    change (String.get 0 (String "|" cmd)) with (Some "|"%char). cbv iota.
    change (Ascii.eqb "|" "|") with true. cbv iota. rewrite Hcmd.
    destruct (exec_StdoutPipe env name args); [reflexivity|].
    destruct (exec_Start env name args); reflexivity. }
  split; rewrite !append_cons, !append_nil; apply Hrun; unfold Ropen_Command; cbn [tail1].
  - rewrite (strings_Split_no_sep name " " Hname). reflexivity.
  - rewrite (strings_Split_app name arg " " Hname), (strings_Split_no_sep arg " " Harg).
    reflexivity.
Qed.

Lemma Ropen_pipe_command_witness :
  read_back (Ropen demo_env "|zcat notes.gz" demo_world).1
  = Some (String.list_byte_of_string "argv: zcat notes.gz").
Proof.
  pose proof (proj2 (Ropen_pipe_command demo_env "zcat" "notes.gz" demo_world
                       eq_refl eq_refl)) as H.
  change ("|" +:+ "zcat" +:+ " " +:+ "notes.gz") with "|zcat notes.gz" in H.
  rewrite H. vm_compute. reflexivity.
Defined.

(** ** A file that was written exists *)





(** ** Descriptors are released *)

(** X13.  Whatever happened before (a flush or an encoder that failed, a
    sticky error in the buffer), when the close of the sink itself does not
    fail [Writer.Close] leaves the sink's descriptor closed. *)
Theorem Writer_Close_releases_sink (env : Env) (W : Writer) (w : World) :
  fault env (CallFileClose (Writer_wtr W)) = None ->
  fds (Writer_Close env W w).2 !! Writer_wtr W = None.
Proof.
  intros Hnf. unfold Writer_Close. unfold mbind at 1, M_bind at 1.
  pose proof (Writer_Flush_fields env W w) as (Hwtr & _). cbv zeta in Hwtr.
  destruct (Writer_Flush env W w) as [W' w1]. cbn [fst] in Hwtr.
  rewrite !seq_world. cbn [mret M_ret snd]. rewrite Hwtr.
  apply fds_file_Close. exact Hnf.
Qed.

(** On a full disk the header and "hi" never reach "out.gz", and [Close]
    still closes the descriptor. *)
Lemma Writer_Close_releases_sink_witness :
  let W := (written full_disk_env "out.gz" [x68; x69]).1.2 in
  let w := (written full_disk_env "out.gz" [x68; x69]).2 in
  (fds w !! Writer_wtr W = Some (mkDescriptor (OnPath "out.gz") O_WRONLY_CREATE_TRUNC 0)
   /\ fs (Writer_Close full_disk_env W w).2 !! "out.gz" = Some (Regular 0x1a4 []))
  /\ fds (Writer_Close full_disk_env W w).2 !! Writer_wtr W = None.
Proof.
  cbv zeta. split; [split; vm_compute; reflexivity|].
  apply (Writer_Close_releases_sink full_disk_env). reflexivity.
Defined.

Lemma os_Open_file_world env f mode data w :
  fault env (CallOpenFile f) = None ->
  fs w !! f = Some (Regular mode data) ->
  may env mode S_IRUSR = true ->
  os_Open env f w
  = (ok (FileReader (fresh (dom (fds w))) (mkStream data io_EOF)),
     set_fds (<[fresh (dom (fds w)) := mkDescriptor (OnPath f) O_RDONLY 0]> (fds w)) w).
Proof.
  intros Hnf Hfs Hr. unfold os_Open, os_OpenFile. rewrite Hnf.
  unfold new_fd, mbind, M_bind, gets, modify, mret, M_ret.
  rewrite Hfs, permitted_O_RDONLY, Hr.
  change (has_flag O_RDONLY O_CREATE) with false.
  change (has_flag O_RDONLY O_TRUNC) with false.
  cbn [andb negb fs fds set_fs set_fds fst snd]. rewrite Hfs. reflexivity.
Qed.

(** X14.  A file opened by [Ropen] and closed by [Reader.Close], with no
    failure of the environment: the table of descriptors and the files are
    again what they were before the open. *)
Theorem Ropen_then_Close (env : Env) (f : string) (w : World)
    (mode : Z) (data : list byte) (rd : Reader) :
  no_fault env -> plain_path f ->
  fs w !! f = Some (Regular mode data) ->
  may env mode S_IRUSR = true ->
  (Ropen env f w).1 = Returns (Some rd, None) ->
  fds (Reader_Close env rd (Ropen env f w).2).2 = fds w
  /\ fs (Reader_Close env rd (Ropen env f w).2).2 = fs w.
Proof.
  intros Hnf Hp Hfs Hmay.
  set (fd := fresh (dom (fds w))).
  set (w1 := set_fds (<[fd := mkDescriptor (OnPath f) O_RDONLY 0]> (fds w)) w).
  assert (Hrun : Ropen env f w
                 = (Returns (Buf env (FileReader fd (mkStream data io_EOF))), w1)).
  { rewrite (Ropen_plain env f w Hp). unfold mbind at 1, M_bind at 1.
    rewrite (XReader_plain env f w Hp). unfold mbind at 1, M_bind at 1.
    rewrite os_Stat_eq, Hfs. unfold mbind at 1, M_bind at 1.
    rewrite (os_Open_file_world env f mode data w (Hnf _) Hfs Hmay). reflexivity. }
  rewrite Hrun. cbn [fst snd]. intros Hbuf. injection Hbuf as Hbuf.
  destruct (Buf_fields env _ rd None Hbuf) as (Hrdr & _).
  assert (Hfresh : fds w !! fd = None).
  { apply not_elem_of_dom. apply is_fresh. }
  assert (Hclose : forall w2, fds w2 = fds w1 -> fs w2 = fs w ->
            fds (file_Close env fd w2).2 = fds w /\ fs (file_Close env fd w2).2 = fs w).
  { intros w2 Hfds2 Hfs2. split; [|rewrite fs_file_Close; exact Hfs2].
    unfold file_Close. rewrite called_bind, (Hnf (CallFileClose fd)).
    unfold mbind, M_bind, gets, modify, mret, M_ret. cbn [fds set_trace].
    rewrite Hfds2. unfold w1 at 1. cbn [fds set_fds]. rewrite lookup_insert_eq.
    cbn [snd fds set_fds set_trace]. rewrite Hfds2. unfold w1. cbn [fds set_fds].
    rewrite delete_insert_eq. apply delete_id. exact Hfresh. }
  unfold Reader_Close. rewrite Hrdr. cbn [is_ReadCloser io_Close].
  rewrite !seq_world. cbn [mret M_ret snd].
  apply Hclose; destruct (Reader_gz rd); reflexivity.
Qed.

Lemma Ropen_then_Close_witness :
  exists rd,
    (Ropen demo_env "notes.txt" world_with_notes).1 = Returns (Some rd, None)
    /\ fds (Ropen demo_env "notes.txt" world_with_notes).2 !! 2%nat
       = Some (mkDescriptor (OnPath "notes.txt") O_RDONLY 0)
    /\ fds (Reader_Close demo_env rd (Ropen demo_env "notes.txt" world_with_notes).2).2
       = fds world_with_notes.
Proof.
  eexists. split; [vm_compute; reflexivity|]. split; [vm_compute; reflexivity|].
  refine (proj1 (Ropen_then_Close demo_env "notes.txt" world_with_notes 0x1a4 hello_world
                   _ demo_no_fault _ eq_refl eq_refl _)).
  - split; [reflexivity|]. split; [|split; reflexivity].
    exists "n"%char. split; [reflexivity|]. split; discriminate.
  - vm_compute. reflexivity.
Defined.
